(** * genindex: README section extraction, list parsing and HTML rendering

    A shallow embedding of [_tools/genindex/genindex.py].  Python [str]
    values are lists of code points; a code point is an [ascii], read as
    one of U+0000..U+00FF, and the character tables of the interpreter
    ([str.isspace], [str.lower]) are written out on that range. *)

From Stdlib Require Import List Ascii String Bool Arith NArith Lia.
Import ListNotations.

(** ** Python [str] primitives used by the script *)

Module Py.

Definition str := list ascii.

(** A string literal of the source. *)
Definition lit (s : string) : str := list_ascii_of_string s.

Definition cp (c : ascii) : N := N_of_ascii c.

(** [str.isspace] on one code point (also the class [\s] of [re] on [str]
    patterns): TAB..CR, FS..US, SPACE, NEL and NBSP. *)
Definition isspace (c : ascii) : bool :=
  let n := cp c in
  ((9 <=? n) && (n <=? 13) || (28 <=? n) && (n <=? 32)
   || (n =? 133) || (n =? 160))%N.

(** [str.lower] on one code point: A..Z and the Latin-1 capitals
    U+00C0..U+00DE without the multiplication sign U+00D7. *)
Definition lower_char (c : ascii) : ascii :=
  let n := cp c in
  if ((65 <=? n) && (n <=? 90)
      || (192 <=? n) && (n <=? 222) && negb (n =? 215))%N
  then ascii_of_N (n + 32) else c.

Definition lower (s : str) : str := map lower_char s.

Fixpoint dropwhile (p : ascii -> bool) (s : str) : str :=
  match s with
  | [] => []
  | c :: r => if p c then dropwhile p r else s
  end.

Definition lstrip (s : str) : str := dropwhile isspace s.
Definition rstrip (s : str) : str := rev (dropwhile isspace (rev s)).
Definition strip (s : str) : str := rstrip (lstrip s).

Fixpoint startswith (p s : str) : bool :=
  match p, s with
  | [], _ => true
  | _ :: _, [] => false
  | a :: p', b :: s' => Ascii.eqb a b && startswith p' s'
  end.

Fixpoint str_eqb (a b : str) : bool :=
  match a, b with
  | [], [] => true
  | x :: a', y :: b' => Ascii.eqb x y && str_eqb a' b'
  | _, _ => false
  end.

(** Truthiness of a [str]: non-empty. *)
Definition truthy (s : str) : bool :=
  match s with [] => false | _ :: _ => true end.

(** [sep.join(parts)] *)
Fixpoint join (sep : str) (parts : list str) : str :=
  match parts with
  | [] => []
  | [p] => p
  | p :: rest => p ++ sep ++ join sep rest
  end.

(** [s.replace(old, new)] for a one-character [old]. *)
Fixpoint replace_char (old : ascii) (new : str) (s : str) : str :=
  match s with
  | [] => []
  | c :: r =>
      if Ascii.eqb c old then new ++ replace_char old new r
      else c :: replace_char old new r
  end.

(** Exceptions the script can end with. *)
Inductive exn : Type :=
| RuntimeError (msg : str)
| FileNotFoundError (path : str)
| IsADirectoryError (path : str)
| UnicodeDecodeError.

Inductive result (A : Type) : Type :=
| Ok (a : A)
| Raise (e : exn).
Arguments Ok {A} a.
Arguments Raise {A} e.

Definition bind {A B : Type} (r : result A) (k : A -> result B) : result B :=
  match r with
  | Ok a => k a
  | Raise e => Raise e
  end.

End Py.

Import Py.

Notation "x <- r ;; k" := (bind r (fun x => k))
  (at level 61, r at next level, right associativity).

(** ** [extract_section] *)

Definition heading : str := lit "## list of tools".

(** The test of the first loop: [line.strip().lower() == "## list of tools"]. *)
Definition is_heading (line : str) : bool :=
  str_eqb (lower (strip line)) heading.

(** The first loop: [start = idx + 1] at the first heading line, [None]
    when the loop ends without a [break]. *)
Fixpoint find_start (lines : list str) (idx : nat) : option nat :=
  match lines with
  | [] => None
  | line :: rest =>
      if is_heading line then Some (idx + 1) else find_start rest (S idx)
  end.

(** The second loop, over [lines[start:]]: stop at the first line that
    starts with [#]. *)
Fixpoint collect (lines : list str) : list str :=
  match lines with
  | [] => []
  | line :: rest =>
      if startswith (lit "#") line then [] else line :: collect rest
  end.

Definition heading_error : exn :=
  RuntimeError (lit "Could not find '## List of tools' heading in README.md").

Definition extract_section (lines : list str) : result (list str) :=
  match find_start lines 0 with
  | None => Raise heading_error
  | Some start => Ok (collect (skipn start lines))
  end.

(** ** The regular expression of [parse_list_items]

    [re.match] is a backtracking matcher anchored at the start of the
    text; the pieces of the pattern are written as matchers in
    continuation-passing style, which try the alternatives in the order
    the engine does (a greedy repetition takes the longest run first and
    gives characters back one at a time). *)

Module Re.

Section Matcher.
Variable A : Type.

(** Literal text. *)
Fixpoint text (p s : str) (k : str -> option A) : option A :=
  match p with
  | [] => k s
  | a :: p' =>
      match s with
      | [] => None
      | b :: s' => if Ascii.eqb a b then text p' s' k else None
      end
  end.

(** Greedy [cls*]; the continuation gets the run and the rest. *)
Fixpoint star (cls : ascii -> bool) (s : str)
         (k : str -> str -> option A) : option A :=
  match s with
  | [] => k [] s
  | c :: r =>
      if cls c then
        match star cls r (fun m t => k (c :: m) t) with
        | Some x => Some x
        | None => k [] s
        end
      else k [] s
  end.

(** Greedy [cls+]. *)
Definition plus (cls : ascii -> bool) (s : str)
           (k : str -> str -> option A) : option A :=
  match s with
  | [] => None
  | c :: r => if cls c then star cls r (fun m t => k (c :: m) t) else None
  end.
End Matcher.

Arguments text {A} p s k.
Arguments star {A} cls s k.
Arguments plus {A} cls s k.

Definition newline : ascii := "010"%char.

(** [[^\]]], [[^)]] and [.] (no DOTALL flag: anything but a newline). *)
Definition not_rbracket (c : ascii) : bool := negb (Ascii.eqb c "]").
Definition not_rparen (c : ascii) : bool := negb (Ascii.eqb c ")").
Definition dot (c : ascii) : bool := negb (Ascii.eqb c newline).

End Re.

(** [(title, url, description)] *)
Definition entry : Type := (str * str * str)%type.

(** [pattern.match(s)] for
    [\* \[([^\]]+)\]\(([^)]+)\)\s*-\s*(.+)]; the result is [match.groups()]. *)
Definition pattern_match (s : str) : option entry :=
  Re.text (lit "* [") s (fun s =>
  Re.plus Re.not_rbracket s (fun title s =>
  Re.text (lit "](") s (fun s =>
  Re.plus Re.not_rparen s (fun url s =>
  Re.text (lit ")") s (fun s =>
  Re.star isspace s (fun _ s =>
  Re.text (lit "-") s (fun s =>
  Re.star isspace s (fun _ s =>
  Re.plus Re.dot s (fun desc _ =>
  Some (title, url, desc)))))))))).

(** ** [parse_list_items] *)

Definition parse_error (buffer : str) : exn :=
  RuntimeError (lit "Could not parse list item: " ++ buffer).

(** The body run on a non-empty buffer: match, raise or append the groups. *)
Definition flush (buffer : str) (items : list entry) : result (list entry) :=
  match pattern_match (strip buffer) with
  | None => Raise (parse_error buffer)
  | Some groups => Ok (items ++ [groups])
  end.

Definition is_bullet (line : str) : bool :=
  startswith (lit "* ") (lstrip line).

(** The [for] loop with its two local variables, then the code after it. *)
Fixpoint parse_loop (lines : list str) (items : list entry) (buffer : str)
  : result (list entry) :=
  match lines with
  | [] => if truthy buffer then flush buffer items else Ok items
  | line :: rest =>
      if is_bullet line then
        items' <- (if truthy buffer then flush buffer items else Ok items) ;;
        parse_loop rest items' (strip line)
      else if truthy buffer then
        parse_loop rest items (buffer ++ lit " " ++ strip line)
      else parse_loop rest items buffer
  end.

Definition parse_list_items (lines : list str) : result (list entry) :=
  parse_loop lines [] [].

(** ** [render_html] *)

Definition dquote : ascii := ascii_of_N 34.
Definition squote : ascii := ascii_of_N 39.

(** [html.escape(s, quote)] of the standard library: five replacements in
    this order, the last two only when [quote] is set. *)
Definition escape (s : str) (quote : bool) : str :=
  let s := replace_char "&" (lit "&amp;") s in
  let s := replace_char "<" (lit "&lt;") s in
  let s := replace_char ">" (lit "&gt;") s in
  if quote then
    let s := replace_char dquote (lit "&quot;") s in
    replace_char squote (lit "&#x27;") s
  else s.

Definition header : list str :=
  [ lit "<!doctype html>";
    lit "<html>";
    lit "<head>";
    lit "  <meta charset=" ++ [dquote] ++ lit "utf-8" ++ [dquote] ++ lit ">";
    lit "  <title>eliben browser-tools</title>";
    lit "</head>";
    lit "<body>";
    lit "  See <a href=" ++ [dquote]
      ++ lit "https://github.com/eliben/browser-tools" ++ [dquote]
      ++ lit ">the GitHub repository</a> for details";
    lit "  <h1>List of tools</h1>";
    lit "  <ul>" ].

Definition footer : list str :=
  [ lit "  </ul>"; lit "</body>"; lit "</html>" ].

(** One pass of the loop body: the [li] string of an entry.  Both calls of
    [html.escape] run with [quote=True] (the default for the title). *)
Definition render_li (e : entry) : str :=
  let '(title, url, desc) := e in
  let li := lit "    <li><a href=" ++ [dquote] ++ escape url true
              ++ [dquote] ++ lit ">" ++ escape title true ++ lit "</a>" in
  let li := if truthy desc then li ++ lit " - " ++ escape desc true else li in
  li ++ lit "</li>".

Definition render_html (tools : list entry) : str :=
  let lines := fold_left (fun lines e => lines ++ [render_li e]) tools header in
  let lines := lines ++ footer in
  join [Re.newline] lines ++ [Re.newline].

(** ** The driver

    [main] reads a file, writes a file and prints.  What these calls do
    is the operating system's business: each of them may raise and may
    change the state of the world in any way.  The driver is written over
    the three calls; [Disk] below is one system, used to run it. *)

Module IO.

(** [Path(path).read_text(encoding="utf-8")],
    [Path(path).write_text(text, encoding="utf-8")] and [print(line)]
    on a state of the world. *)
Record system (world : Type) : Type := System {
  read_text : str -> world -> result str * world;
  write_text : str -> str -> world -> result unit * world;
  print : str -> world -> result unit * world
}.
Arguments read_text {world} s path w.
Arguments write_text {world} s path text w.
Arguments print {world} s line w.

Definition io (world A : Type) : Type := world -> result A * world.

Definition ret {world A : Type} (a : A) : io world A := fun w => (Ok a, w).

Definition bind {world A B : Type} (m : io world A) (k : A -> io world B)
  : io world B :=
  fun w =>
    match m w with
    | (Ok a, w') => k a w'
    | (Raise e, w') => (Raise e, w')
    end.

(** A computation of the three pure components, which may raise. *)
Definition lift {world A : Type} (r : result A) : io world A :=
  fun w => (r, w).

(** The exit status of the interpreter: 1 after an uncaught exception. *)
Definition exit_status {A : Type} (r : result A) : nat :=
  match r with
  | Ok _ => 0
  | Raise _ => 1
  end.

End IO.

(** A file system with directories, several names for one file and files
    whose bytes are no UTF-8 text. *)
Module Disk.

Inductive node : Type :=
| Dir
| File (inode : nat).

Inductive data : Type :=
| Text (text : str)
| Undecodable.

Record state : Type := State {
  names : str -> option node;
  contents : nat -> data;
  next : nat;
  stdout : list str
}.

Definition read_text (path : str) (w : state) : result str * state :=
  match names w path with
  | None => (Raise (FileNotFoundError path), w)
  | Some Dir => (Raise (IsADirectoryError path), w)
  | Some (File i) =>
      match contents w i with
      | Text text => (Ok text, w)
      | Undecodable => (Raise UnicodeDecodeError, w)
      end
  end.

(** Writing replaces the contents of the file the name stands for, under
    all its names; a name not in use gets a new file. *)
Definition write_text (path text : str) (w : state) : result unit * state :=
  match names w path with
  | Some Dir => (Raise (IsADirectoryError path), w)
  | Some (File i) =>
      (Ok tt,
       {| names := names w;
          contents := fun j => if Nat.eqb j i then Text text else contents w j;
          next := next w;
          stdout := stdout w |})
  | None =>
      (Ok tt,
       {| names := fun p =>
            if str_eqb p path then Some (File (next w)) else names w p;
          contents := fun j =>
            if Nat.eqb j (next w) then Text text else contents w j;
          next := S (next w);
          stdout := stdout w |})
  end.

Definition print (line : str) (w : state) : result unit * state :=
  (Ok tt,
   {| names := names w; contents := contents w; next := next w;
      stdout := stdout w ++ [line] |}).

Definition os : IO.system state :=
  {| IO.read_text := read_text;
     IO.write_text := write_text;
     IO.print := print |}.

(** The text under a name, when it can be read. *)
Definition text_at (w : state) (path : str) : option str :=
  match fst (read_text path w) with
  | Ok text => Some text
  | Raise _ => None
  end.

End Disk.

Notation "x <~ m ;; k" := (IO.bind m (fun x => k))
  (at level 61, m at next level, right associativity).

(** The line boundaries of [str.splitlines]: LF, VT, FF, CR, FS, GS, RS
    and NEL. *)
Definition is_linebreak (c : ascii) : bool :=
  let n := cp c in
  ((10 <=? n) && (n <=? 13) || (28 <=? n) && (n <=? 30) || (n =? 133))%N.

(** [str.splitlines()]: [cur] is the line read so far; CR LF is one
    boundary and no empty last line is produced. *)
Fixpoint splitlines_from (s : str) (cur : str) : list str :=
  match s with
  | [] => if truthy cur then [cur] else []
  | c :: r =>
      if is_linebreak c then
        cur :: splitlines_from
                 (match r with
                  | d :: r' =>
                      if Ascii.eqb c "013" && Ascii.eqb d "010" then r' else r
                  | [] => r
                  end) []
      else splitlines_from r (cur ++ [c])
  end.

Definition splitlines (s : str) : list str := splitlines_from s [].

Definition readme_path : str := lit "README.md".
Definition index_path : str := lit "index.html".

Section Driver.
Variable world : Type.
Variable os : IO.system world.

Definition main : IO.io world unit :=
  text <~ IO.read_text os readme_path ;;
  let readme_lines := splitlines text in
  section_lines <~ IO.lift (extract_section readme_lines) ;;
  tools <~ IO.lift (parse_list_items section_lines) ;;
  let html_output := render_html tools in
  _ <~ IO.write_text os index_path html_output ;;
  IO.print os (lit "Wrote " ++ index_path).

End Driver.
Arguments main {world} os w.

(** ** Specification-side notions *)

(** [needle in hay] *)
Fixpoint contains (needle hay : str) : bool :=
  startswith needle hay
  || match hay with
     | [] => false
     | _ :: hay' => contains needle hay'
     end.

Definition all_space (s : str) : Prop := Forall (fun c => isspace c = true) s.

(** The grammar of one item as the pattern of the source accepts it: the
    text starts with [* [TITLE](URL)], optional white space, a hyphen,
    optional white space and a description of at least one character
    without a newline; anything may follow. *)
Definition item_grammar (s : str) : Prop :=
  exists title url w1 w2 desc rest,
    s = lit "* [" ++ title ++ lit "](" ++ url ++ lit ")"
          ++ w1 ++ lit "-" ++ w2 ++ desc ++ rest
    /\ title <> [] /\ ~ In "]"%char title
    /\ url <> [] /\ ~ In ")"%char url
    /\ all_space w1 /\ all_space w2
    /\ desc <> [] /\ ~ In Re.newline desc.

(** The grammar in the words of the specification: [* [TITLE](URL) - DESCRIPTION]
    with a literal space, hyphen, space between the link and the
    description, which is the rest of the text. *)
Definition spec_grammar (s : str) : Prop :=
  exists title url desc,
    s = lit "* [" ++ title ++ lit "](" ++ url ++ lit ") - " ++ desc
    /\ title <> [] /\ ~ In "]"%char title
    /\ url <> [] /\ ~ In ")"%char url.

(** What the lines up to the next bullet add to the buffer. *)
Fixpoint cont_text (lines : list str) : str :=
  match lines with
  | [] => []
  | l :: rest =>
      if is_bullet l then [] else lit " " ++ strip l ++ cont_text rest
  end.

(** The item strings the loop assembles, in order: one per bullet line. *)
Fixpoint items_of (lines : list str) : list str :=
  match lines with
  | [] => []
  | l :: rest =>
      if is_bullet l then (strip l ++ cont_text rest) :: items_of rest
      else items_of rest
  end.

(** The buffer after a bullet line [b] and the lines [cs] after it. *)
Definition assemble (b : str) (cs : list str) : str :=
  fold_left (fun buffer l => buffer ++ lit " " ++ strip l) cs (strip b).

(** Matching every item string in turn, stopping at the first failure. *)
Fixpoint parse_all (bs : list str) : result (list entry) :=
  match bs with
  | [] => Ok []
  | b :: bs' =>
      match pattern_match (strip b) with
      | None => Raise (parse_error b)
      | Some e => es <- parse_all bs' ;; Ok (e :: es)
      end
  end.

(** The item strings still to be matched when the loop stands before
    [lines] with [buffer]. *)
Definition pending (buffer : str) (lines : list str) : list str :=
  if truthy buffer then (buffer ++ cont_text lines) :: items_of lines
  else items_of lines.

Definition extend (items : list entry) (r : result (list entry))
  : result (list entry) :=
  es <- r ;; Ok (items ++ es).

(** The fields of an entry. *)
Definition title_of (e : entry) : str := fst (fst e).
Definition url_of (e : entry) : str := snd (fst e).
Definition desc_of (e : entry) : str := snd e.

(** A decision procedure for [spec_grammar], with the matchers above. *)
Definition spec_grammarb (s : str) : bool :=
  match
    Re.text (lit "* [") s (fun s =>
    Re.plus Re.not_rbracket s (fun _ s =>
    Re.text (lit "](") s (fun s =>
    Re.plus Re.not_rparen s (fun _ s =>
    Re.text (lit ") - ") s (fun _ => Some tt)))))
  with
  | Some _ => true
  | None => false
  end.

(** The grouping in the words of the specification: a line is a bullet
    when its trimmed text begins with [* ]; the non-empty lines after a
    bullet are joined to it with one space each; empty lines are left
    out. *)
Definition spec_bullet (line : str) : bool :=
  startswith (lit "* ") (strip line).

Fixpoint spec_cont_text (lines : list str) : str :=
  match lines with
  | [] => []
  | l :: rest =>
      if spec_bullet l then []
      else if truthy l then lit " " ++ strip l ++ spec_cont_text rest
      else spec_cont_text rest
  end.

Fixpoint spec_items (lines : list str) : list str :=
  match lines with
  | [] => []
  | l :: rest =>
      if spec_bullet l then (strip l ++ spec_cont_text rest) :: spec_items rest
      else spec_items rest
  end.

(** The text of a list of lines, each ended by a newline. *)
Definition unlines (ls : list str) : str :=
  List.concat (map (fun l => l ++ ["010"%char]) ls).

(** The entity of a character: what escaping with [quote=True] writes for
    it. *)
Definition entity (c : ascii) : str :=
  if Ascii.eqb c "&" then lit "&amp;"
  else if Ascii.eqb c "<" then lit "&lt;"
  else if Ascii.eqb c ">" then lit "&gt;"
  else if Ascii.eqb c "034" then lit "&quot;"
  else if Ascii.eqb c "039" then lit "&#x27;"
  else [c].

Definition entities : list str :=
  [lit "&amp;"; lit "&lt;"; lit "&gt;"; lit "&quot;"; lit "&#x27;"].

(** Every ampersand of the text starts one of the five entities. *)
Fixpoint amp_escaped (s : str) : bool :=
  match s with
  | [] => true
  | c :: r =>
      (negb (Ascii.eqb c "&") || existsb (fun ent => startswith ent s) entities)
      && amp_escaped r
  end.

(** The escaped form of a text: the entity of each character in turn. *)
Definition escaped (s : str) : str := List.concat (map entity s).

(** The list item of an entry as the specification describes it: the
    link with the escaped URL and title, then [ - ] and the escaped
    description when there is one. *)
Definition item_markup (e : entry) : str :=
  lit "    <li><a href=" ++ ["034"%char] ++ escaped (url_of e)
    ++ ["034"%char] ++ lit ">" ++ escaped (title_of e) ++ lit "</a>"
    ++ (if truthy (desc_of e) then lit " - " ++ escaped (desc_of e) else [])
    ++ lit "</li>".

(** Number of occurrences of a character. *)
Definition count (c : ascii) (s : str) : nat := count_occ ascii_dec s c.

(** A file system holding only a README with a malformed list item. *)
Definition readme_world : Disk.state :=
  {| Disk.names := fun p =>
       if str_eqb p readme_path then Some (Disk.File 0) else None;
     Disk.contents := fun _ =>
       Disk.Text (lit "## List of tools" ++ [Re.newline]
                    ++ lit "* [Foo](http://a.com) no separator" ++ [Re.newline]);
     Disk.next := 1;
     Disk.stdout := [] |}.

(** A file system holding only a README whose list section is empty. *)
Definition empty_list_world : Disk.state :=
  {| Disk.names := fun p =>
       if str_eqb p readme_path then Some (Disk.File 0) else None;
     Disk.contents := fun _ =>
       Disk.Text (lit "Intro" ++ [Re.newline] ++ lit "## List of tools"
                    ++ [Re.newline] ++ lit "## License" ++ [Re.newline]);
     Disk.next := 1;
     Disk.stdout := [] |}.

Definition no_heading (l : str) : Prop := is_heading l = false.
Definition no_hash (l : str) : Prop := startswith (lit "#") l = false.

(** A document used to exercise [extract_section]. *)
Definition readme_example : list str :=
  [ lit "# browser-tools"; lit "  ## LIST of Tools "; [];
    lit "* [Foo](http://a.com) - does foo"; lit "## License"; lit "MIT" ].


(** ** Notions used by the further properties *)

(** A line that is empty once trimmed. *)
Definition blank (l : str) : Prop := strip l = [].

(** The README line of an entry. *)
Definition format_item (e : entry) : str :=
  lit "* [" ++ title_of e ++ lit "](" ++ url_of e ++ lit ") - " ++ desc_of e.

(** Entries that a README line can carry as they are. *)
Definition well_formed (e : entry) : Prop :=
  title_of e <> [] /\ ~ In "]"%char (title_of e)
  /\ url_of e <> [] /\ ~ In ")"%char (url_of e)
  /\ desc_of e <> [] /\ ~ In Re.newline (desc_of e)
  /\ strip (desc_of e) = desc_of e.

(** The five characters [html.escape] rewrites. *)
Definition special (c : ascii) : bool :=
  Ascii.eqb c "&" || Ascii.eqb c "<" || Ascii.eqb c ">"
  || Ascii.eqb c dquote || Ascii.eqb c squote.

(** A text without line boundaries. *)
Definition one_line (l : str) : Prop :=
  Forall (fun c => is_linebreak c = false) l.

(** A file system holding only a README with two tools. *)
Definition tools_world : Disk.state :=
  {| Disk.names := fun p =>
       if str_eqb p readme_path then Some (Disk.File 0) else None;
     Disk.contents := fun _ =>
       Disk.Text (unlines
                    [ lit "# browser-tools"; lit "## List of tools";
                      lit "* [Foo](http://a.com) - does foo";
                      lit "* [R&D](http://b.org/?q=1) - a - b";
                      lit "## License" ]);
     Disk.next := 1;
     Disk.stdout := [] |}.

(** The last two calls of [main] on a page: write it, then print. *)
Definition write_page {world : Type} (os : IO.system world) (page : str)
  : IO.io world unit :=
  _ <~ IO.write_text os index_path page ;;
  IO.print os (lit "Wrote index.html").

(** A disk where [index.html] is a directory, and one where it is another
    name of the README. *)
Definition directory_world : Disk.state :=
  {| Disk.names := fun p =>
       if str_eqb p readme_path then Some (Disk.File 0)
       else if str_eqb p index_path then Some Disk.Dir else None;
     Disk.contents := Disk.contents tools_world;
     Disk.next := 1;
     Disk.stdout := [] |}.

Definition linked_world : Disk.state :=
  {| Disk.names := fun p =>
       if str_eqb p readme_path then Some (Disk.File 0)
       else if str_eqb p index_path then Some (Disk.File 0) else None;
     Disk.contents := Disk.contents tools_world;
     Disk.next := 1;
     Disk.stdout := [] |}.
(** * Properties *)

(** ** Facts about the [str] primitives *)

Lemma str_eqb_eq (a b : str) : str_eqb a b = true <-> a = b.
Proof.
  revert b; induction a as [|x a IH]; intros [|y b]; simpl;
    try (split; [discriminate | discriminate]); try tauto.
  rewrite andb_true_iff, Ascii.eqb_eq, IH.
  split; [intros [-> ->]; reflexivity | intros E; inversion E; auto].
Qed.

Lemma str_eqb_refl (a : str) : str_eqb a a = true.
Proof. apply str_eqb_eq; reflexivity. Qed.

Lemma startswith_app (p r : str) : startswith p (p ++ r) = true.
Proof.
  induction p as [|a p IH]; simpl; [reflexivity|].
  rewrite Ascii.eqb_refl; exact IH.
Qed.

Lemma startswith_inv (p s : str) :
  startswith p s = true -> exists r, s = p ++ r.
Proof.
  revert s; induction p as [|a p IH]; intros s H.
  - exists s; reflexivity.
  - destruct s as [|b s]; simpl in H; [discriminate|].
    apply andb_true_iff in H as [Hab Hps].
    apply Ascii.eqb_eq in Hab; subst b.
    destruct (IH _ Hps) as [r ->]; exists r; reflexivity.
Qed.

Lemma dropwhile_last (p : ascii -> bool) (s : str) (c : ascii) :
  p c = false -> exists t, dropwhile p (s ++ [c]) = t ++ [c].
Proof.
  intros Hc; induction s as [|a s IH]; simpl.
  - rewrite Hc; exists []; reflexivity.
  - destruct (p a); [exact IH|].
    exists (a :: s); reflexivity.
Qed.

(** [rstrip] keeps everything up to the last character that is no space. *)
Lemma rstrip_cons_nonspace (c : ascii) (s : str) :
  isspace c = false -> exists t, rstrip (c :: s) = c :: t.
Proof.
  intros Hc; unfold rstrip; simpl.
  destruct (dropwhile_last isspace (rev s) c Hc) as [t ->].
  rewrite rev_app_distr; simpl; eauto.
Qed.

Lemma bullet_strip_truthy (line : str) :
  is_bullet line = true -> truthy (strip line) = true.
Proof.
  unfold is_bullet, strip; intros H.
  apply startswith_inv in H as [r ->].
  destruct (rstrip_cons_nonspace "*" (" " :: r)%char eq_refl) as [t E].
  change (lit "* " ++ r) with ("*" :: " " :: r)%char.
  rewrite E; reflexivity.
Qed.

Lemma truthy_app_l (a b : str) : truthy a = true -> truthy (a ++ b) = true.
Proof. destruct a; [discriminate | reflexivity]. Qed.

(** ** [extract_section] *)

Lemma find_start_none (lines : list str) (idx : nat) :
  Forall no_heading lines -> find_start lines idx = None.
Proof.
  intros H; revert idx; induction H as [|l ls Hl _ IH]; intros idx; simpl.
  - reflexivity.
  - rewrite Hl; apply IH.
Qed.

Lemma find_start_first (pre : list str) (m : str) (post : list str) (idx : nat) :
  Forall no_heading pre -> is_heading m = true ->
  find_start (pre ++ m :: post) idx = Some (idx + List.length pre + 1).
Proof.
  intros H Hm; revert idx; induction H as [|l ls Hl _ IH]; intros idx; simpl.
  - rewrite Hm; f_equal; lia.
  - rewrite Hl, IH; f_equal; lia.
Qed.

(** Every list with a heading line splits at the first one. *)
Lemma first_heading_split (lines : list str) :
  (exists l, In l lines /\ is_heading l = true) ->
  exists pre m post,
    lines = pre ++ m :: post /\ Forall no_heading pre /\ is_heading m = true.
Proof.
  induction lines as [|a ls IH]; intros [l [Hin Hl]]; [destruct Hin|].
  destruct (is_heading a) eqn:Ha.
  - exists [], a, ls; auto.
  - destruct Hin as [-> | Hin]; [congruence|].
    destruct IH as (pre & m & post & -> & Hpre & Hm); [eauto|].
    exists (a :: pre), m, post; repeat split; auto.
Qed.

Lemma collect_split (post : list str) :
  exists sec rest,
    post = sec ++ rest /\ collect post = sec /\ Forall no_hash sec
    /\ (rest = [] \/ exists h t, rest = h :: t /\ startswith (lit "#") h = true).
Proof.
  induction post as [|a ls (sec & rest & E & Hc & Hs & Hr)].
  - exists [], []; simpl; auto.
  - destruct (startswith (lit "#") a) eqn:Ha; cbn [collect]; rewrite Ha.
    + exists [], (a :: ls); split; [reflexivity|].
      split; [reflexivity|]. split; [constructor|]. right; eauto.
    + exists (a :: sec), rest; subst ls; rewrite Hc.
      split; [reflexivity|]. split; [reflexivity|].
      split; [constructor; assumption | assumption].
Qed.

Lemma skipn_past (pre : list str) (m : str) (post : list str) :
  skipn (0 + List.length pre + 1) (pre ++ m :: post) = post.
Proof.
  replace (0 + List.length pre + 1) with (List.length (pre ++ [m]))
    by (rewrite length_app; simpl; lia).
  change (m :: post) with ([m] ++ post); rewrite app_assoc.
  rewrite skipn_app, skipn_all, Nat.sub_diag; reflexivity.
Qed.

Lemma collect_run (sec rest : list str) :
  Forall no_hash sec ->
  (rest = [] \/ exists h t, rest = h :: t /\ startswith (lit "#") h = true) ->
  collect (sec ++ rest) = sec.
Proof.
  intros Hs Hr; induction Hs as [|l sec Hl _ IH].
  - destruct Hr as [-> | (h & t & -> & Hh)]; [reflexivity|].
    cbn [app collect]; rewrite Hh; reflexivity.
  - cbn [app collect]; rewrite Hl, IH; reflexivity.
Qed.

(** The result for a document cut at its first marker line and at the
    next line that starts with [#]. *)
Lemma extract_section_split (pre : list str) (m : str) (sec rest : list str) :
  Forall no_heading pre -> is_heading m = true ->
  Forall no_hash sec ->
  (rest = [] \/ exists h t, rest = h :: t /\ startswith (lit "#") h = true) ->
  extract_section (pre ++ m :: sec ++ rest) = Ok sec.
Proof.
  intros Hpre Hm Hs Hr; unfold extract_section.
  rewrite (find_start_first pre m (sec ++ rest) 0 Hpre Hm), skipn_past.
  rewrite (collect_run sec rest Hs Hr); reflexivity.
Qed.

(** C3: when some line is the marker heading, the document splits as
    [pre ++ m :: sec ++ rest] with [m] the first marker line, [sec] free of
    lines starting with [#] and [rest] empty or headed by such a line; for
    every such split [extract_section] returns exactly [sec]: the lines
    strictly after the first marker line up to the next heading or the
    end, in order, possibly none. *)
Theorem extract_section_between (lines : list str) :
  (exists l, In l lines /\ is_heading l = true) ->
  (exists pre m sec rest,
     lines = pre ++ m :: sec ++ rest
     /\ Forall no_heading pre /\ is_heading m = true
     /\ Forall no_hash sec
     /\ (rest = [] \/
         exists h t, rest = h :: t /\ startswith (lit "#") h = true))
  /\ (forall pre m sec rest,
        lines = pre ++ m :: sec ++ rest ->
        Forall no_heading pre -> is_heading m = true ->
        Forall no_hash sec ->
        (rest = [] \/
         exists h t, rest = h :: t /\ startswith (lit "#") h = true) ->
        extract_section lines = Ok sec).
Proof.
  intros H; split.
  - destruct (first_heading_split lines H) as (pre & m & post & -> & Hpre & Hm).
    destruct (collect_split post) as (sec & rest & -> & _ & Hs & Hr).
    exists pre, m, sec, rest; repeat split; auto.
  - intros pre m sec rest -> Hpre Hm Hs Hr.
    apply extract_section_split; assumption.
Qed.

Lemma extract_section_between_witness :
  extract_section readme_example
  = Ok [[]; lit "* [Foo](http://a.com) - does foo"].
Proof.
  assert (H : exists l, In l readme_example /\ is_heading l = true).
  { exists (lit "  ## LIST of Tools "); split;
      [right; left; reflexivity | reflexivity]. }
  destruct (extract_section_between readme_example H) as [_ Hall].
  apply (Hall [lit "# browser-tools"] (lit "  ## LIST of Tools ")
              [[]; lit "* [Foo](http://a.com) - does foo"]
              [lit "## License"; lit "MIT"]).
  - reflexivity.
  - repeat constructor.
  - reflexivity.
  - repeat constructor.
  - right; eexists; eexists; split; reflexivity.
Defined.

(** C4: when no line is the marker heading, [extract_section] raises,
    whatever else the document holds, and the message of the error
    contains the text of the heading. *)
Theorem extract_section_heading_not_found (lines : list str) :
  Forall no_heading lines ->
  exists msg,
    extract_section lines = Raise (RuntimeError msg)
    /\ contains (lit "## List of tools") msg = true.
Proof.
  intros H; unfold extract_section.
  rewrite (find_start_none lines 0 H).
  eexists; split; reflexivity.
Qed.

Lemma extract_section_heading_not_found_witness :
  Forall no_heading [lit "# Title"; lit "### List of tools"; lit "* [a](b) - c"]
  /\ exists msg,
       extract_section
         [lit "# Title"; lit "### List of tools"; lit "* [a](b) - c"]
       = Raise (RuntimeError msg)
       /\ contains (lit "## List of tools") msg = true.
Proof.
  assert (H : Forall no_heading
                [lit "# Title"; lit "### List of tools"; lit "* [a](b) - c"]).
  { repeat constructor. }
  split; [exact H | exact (extract_section_heading_not_found _ H)].
Defined.

(** ** The matchers of the pattern *)

Section MatcherFacts.
Variable A : Type.
Implicit Types (k : str -> option A) (kk : str -> str -> option A).

Lemma text_app (p r : str) k : Re.text p (p ++ r) k = k r.
Proof.
  induction p as [|a p IH]; simpl; [reflexivity|].
  rewrite Ascii.eqb_refl; exact IH.
Qed.

Lemma text_some (p s : str) k (x : A) :
  Re.text p s k = Some x -> exists r, s = p ++ r /\ k r = Some x.
Proof.
  revert s; induction p as [|a p IH]; intros s H; simpl in H.
  - exists s; auto.
  - destruct s as [|b s]; [discriminate|].
    destruct (Ascii.eqb a b) eqn:E; [|discriminate].
    apply Ascii.eqb_eq in E; subst b.
    destruct (IH _ H) as (r & -> & Hk); exists r; auto.
Qed.

Lemma star_some (cls : ascii -> bool) (s : str) kk (x : A) :
  Re.star cls s kk = Some x ->
  exists m r, s = m ++ r /\ forallb cls m = true /\ kk m r = Some x.
Proof.
  revert kk; induction s as [|c s IH]; intros kk H; simpl in H.
  - exists [], []; auto.
  - destruct (cls c) eqn:Hc; [|exists [], (c :: s); auto].
    destruct (Re.star cls s (fun m t => kk (c :: m) t)) eqn:Hs.
    + injection H as ->.
      destruct (IH _ Hs) as (m & r & -> & Hm & Hk).
      exists (c :: m), r; simpl; rewrite Hc; auto.
    + exists [], (c :: s); auto.
Qed.

Lemma star_complete (cls : ascii -> bool) (m r : str) kk :
  forallb cls m = true -> kk m r <> None -> Re.star cls (m ++ r) kk <> None.
Proof.
  revert kk; induction m as [|c m IH]; intros kk Hm Hk; simpl.
  - destruct r as [|c r]; simpl; [exact Hk|].
    destruct (cls c); [|exact Hk].
    destruct (Re.star cls r _); [discriminate | exact Hk].
  - simpl in Hm; apply andb_true_iff in Hm as [Hc Hm]; rewrite Hc.
    specialize (IH (fun m t => kk (c :: m) t) Hm Hk).
    destruct (Re.star cls (m ++ r) _); [discriminate | contradiction].
Qed.

Lemma plus_some (cls : ascii -> bool) (s : str) kk (x : A) :
  Re.plus cls s kk = Some x ->
  exists m r,
    s = m ++ r /\ m <> [] /\ forallb cls m = true /\ kk m r = Some x.
Proof.
  unfold Re.plus; destruct s as [|c s]; [discriminate|].
  destruct (cls c) eqn:Hc; [|discriminate]; intros H.
  apply star_some in H as (m & r & -> & Hm & Hk).
  exists (c :: m), r; simpl; rewrite Hc; repeat split; auto; discriminate.
Qed.

Lemma plus_complete (cls : ascii -> bool) (m r : str) kk :
  m <> [] -> forallb cls m = true -> kk m r <> None ->
  Re.plus cls (m ++ r) kk <> None.
Proof.
  destruct m as [|c m]; [congruence|]; intros _ Hm Hk; simpl in *.
  apply andb_true_iff in Hm as [Hc Hm]; rewrite Hc.
  apply star_complete; assumption.
Qed.
End MatcherFacts.

Lemma forallb_not_char (x : ascii) (s : str) :
  forallb (fun c => negb (Ascii.eqb c x)) s = true <-> ~ In x s.
Proof.
  induction s as [|c s IH]; simpl; [tauto|].
  rewrite andb_true_iff, negb_true_iff, IH, Ascii.eqb_neq.
  intuition congruence.
Qed.

Lemma forallb_space (s : str) : forallb isspace s = true <-> all_space s.
Proof. unfold all_space; rewrite forallb_forall, Forall_forall; tauto. Qed.

(** A successful match exhibits the text as an instance of the grammar,
    with the three groups it returns. *)
Lemma pattern_match_sound (s : str) (title url desc : str) :
  pattern_match s = Some (title, url, desc) ->
  exists w1 w2 rest,
    s = lit "* [" ++ title ++ lit "](" ++ url ++ lit ")"
          ++ w1 ++ lit "-" ++ w2 ++ desc ++ rest
    /\ title <> [] /\ ~ In "]"%char title
    /\ url <> [] /\ ~ In ")"%char url
    /\ all_space w1 /\ all_space w2
    /\ desc <> [] /\ ~ In Re.newline desc.
Proof.
  unfold pattern_match; intros H.
  apply text_some in H as (s1 & -> & H).
  apply plus_some in H as (t & s2 & -> & Ht0 & Ht & H).
  apply text_some in H as (s3 & -> & H).
  apply plus_some in H as (u & s4 & -> & Hu0 & Hu & H).
  apply text_some in H as (s5 & -> & H).
  apply star_some in H as (w1 & s6 & -> & Hw1 & H).
  apply text_some in H as (s7 & -> & H).
  apply star_some in H as (w2 & s8 & -> & Hw2 & H).
  apply plus_some in H as (d & rest & -> & Hd0 & Hd & H).
  injection H as <- <- <-.
  exists w1, w2, rest.
  apply forallb_not_char in Ht, Hu, Hd.
  apply forallb_space in Hw1, Hw2.
  repeat split; auto.
Qed.

(** Conversely the pattern matches every instance of the grammar. *)
Lemma pattern_match_complete (s : str) :
  item_grammar s -> pattern_match s <> None.
Proof.
  intros (t & u & w1 & w2 & d & rest & -> & Ht0 & Ht & Hu0 & Hu
          & Hw1 & Hw2 & Hd0 & Hd).
  apply forallb_not_char in Ht, Hu, Hd.
  apply forallb_space in Hw1, Hw2.
  unfold pattern_match.
  rewrite text_app. apply plus_complete; auto.
  rewrite text_app. apply plus_complete; auto.
  rewrite text_app. apply star_complete; auto.
  rewrite text_app. apply star_complete; auto.
  apply plus_complete; auto. discriminate.
Qed.

Lemma pattern_match_grammar (s : str) :
  pattern_match s <> None <-> item_grammar s.
Proof.
  split; [|apply pattern_match_complete].
  destruct (pattern_match s) as [[[t u] d]|] eqn:E; [intros _|congruence].
  destruct (pattern_match_sound s t u d E) as (w1 & w2 & rest & H).
  exists t, u, w1, w2, d, rest; exact H.
Qed.

(** ** [parse_list_items] *)

Lemma extend_flush (buffer : str) (items : list entry) (bs : list str) :
  extend items (parse_all (buffer :: bs))
  = items' <- flush buffer items ;; extend items' (parse_all bs).
Proof.
  unfold flush; simpl.
  destruct (pattern_match (strip buffer)) as [e|]; simpl; [|reflexivity].
  destruct (parse_all bs) as [es|x]; simpl; [|reflexivity].
  rewrite <- app_assoc; reflexivity.
Qed.

Lemma extend_nil (r : result (list entry)) : extend [] r = r.
Proof. destruct r; reflexivity. Qed.

Lemma parse_loop_pending (lines : list str) :
  forall items buffer,
    parse_loop lines items buffer
    = extend items (parse_all (pending buffer lines)).
Proof.
  induction lines as [|l rest IH]; intros items buffer; unfold pending.
  - simpl. destruct (truthy buffer).
    + rewrite app_nil_r, extend_flush.
      destruct (flush buffer items); simpl; [rewrite app_nil_r|]; reflexivity.
    + simpl; rewrite app_nil_r; reflexivity.
  - cbn [parse_loop cont_text items_of].
    destruct (is_bullet l) eqn:Hl.
    + assert (Hs : pending (strip l) rest
                   = (strip l ++ cont_text rest) :: items_of rest).
      { unfold pending; rewrite (bullet_strip_truthy l Hl); reflexivity. }
      destruct (truthy buffer).
      * rewrite app_nil_r, extend_flush.
        destruct (flush buffer items); simpl; [|reflexivity].
        rewrite IH, Hs; reflexivity.
      * simpl; rewrite IH, Hs; reflexivity.
    + destruct (truthy buffer) eqn:Hb.
      * rewrite IH; unfold pending.
        rewrite (truthy_app_l buffer _ Hb), <- !app_assoc; reflexivity.
      * rewrite IH; unfold pending; rewrite Hb; reflexivity.
Qed.

(** The loop matches the assembled item strings one after the other. *)
Lemma parse_list_items_items_of (lines : list str) :
  parse_list_items lines = parse_all (items_of lines).
Proof.
  unfold parse_list_items; rewrite parse_loop_pending; apply extend_nil.
Qed.

Lemma parse_all_ok (bs : list str) (es : list entry) :
  parse_all bs = Ok es
  <-> Forall2 (fun b e => pattern_match (strip b) = Some e) bs es.
Proof.
  revert es; induction bs as [|b bs IH]; intros es; simpl.
  - split; [intros [= <-]; constructor | intros H; inversion H; reflexivity].
  - destruct (pattern_match (strip b)) as [e|] eqn:E.
    + destruct (parse_all bs) as [es'|x]; simpl.
      * split.
        -- intros [= <-]; constructor; [exact E | apply IH; reflexivity].
        -- intros H; inversion H as [|? e' ? es'' He Hes]; subst.
           apply IH in Hes; congruence.
      * split; [discriminate|].
        intros H; inversion H as [|? e' ? es'' He Hes]; subst.
        apply IH in Hes; discriminate.
    + split; [discriminate|].
      intros H; inversion H; congruence.
Qed.

Lemma parse_all_fail (pre : list str) (b : str) (post : list str) :
  Forall (fun b => pattern_match (strip b) <> None) pre ->
  pattern_match (strip b) = None ->
  parse_all (pre ++ b :: post) = Raise (parse_error b).
Proof.
  intros Hpre Hb; induction Hpre as [|a pre Ha _ IH]; simpl.
  - rewrite Hb; reflexivity.
  - destruct (pattern_match (strip a)); [|congruence].
    rewrite IH; reflexivity.
Qed.

Lemma parse_all_total (bs : list str) :
  Forall (fun b => pattern_match (strip b) <> None) bs ->
  exists es, parse_all bs = Ok es.
Proof.
  induction 1 as [|b bs Hb _ [es IH]]; simpl; [eauto|].
  destruct (pattern_match (strip b)) as [e|]; [|congruence].
  rewrite IH; simpl; eauto.
Qed.

Lemma items_of_skip (pre rest : list str) :
  Forall (fun l => is_bullet l = false) pre ->
  items_of (pre ++ rest) = items_of rest.
Proof.
  induction 1 as [|l pre Hl _ IH]; simpl; [reflexivity|].
  rewrite Hl; exact IH.
Qed.

Lemma cont_text_run (cs rest : list str) :
  Forall (fun l => is_bullet l = false) cs ->
  (rest = [] \/ exists h t, rest = h :: t /\ is_bullet h = true) ->
  cont_text (cs ++ rest) = List.concat (map (fun l => lit " " ++ strip l) cs).
Proof.
  intros Hcs Hrest; induction Hcs as [|l cs Hl _ IH]; simpl.
  - destruct Hrest as [-> | (h & t & -> & Hh)]; simpl; [|rewrite Hh];
      reflexivity.
  - rewrite Hl, IH; reflexivity.
Qed.

Lemma assemble_concat (b : str) (cs : list str) :
  assemble b cs = strip b ++ List.concat (map (fun l => lit " " ++ strip l) cs).
Proof.
  unfold assemble; generalize (strip b) as buffer.
  induction cs as [|l cs IH]; intros buffer; simpl.
  - rewrite app_nil_r; reflexivity.
  - rewrite IH, <- !app_assoc; reflexivity.
Qed.

Lemma spec_grammarb_complete (s : str) :
  spec_grammar s -> spec_grammarb s = true.
Proof.
  intros (t & u & d & -> & Ht0 & Ht & Hu0 & Hu).
  apply forallb_not_char in Ht, Hu.
  unfold spec_grammarb.
  match goal with
  | |- match ?m with _ => _ end = _ =>
      assert (H : m <> None); [|destruct m; [reflexivity | congruence]]
  end.
  rewrite text_app. apply plus_complete; auto.
  rewrite text_app. apply plus_complete; auto.
  rewrite text_app. discriminate.
Qed.

Lemma dropwhile_head (p : ascii -> bool) (s : str) (c : ascii) (r : str) :
  dropwhile p s = c :: r -> p c = false.
Proof.
  induction s as [|a s IH]; simpl; [discriminate|].
  destruct (p a) eqn:E; [exact IH|].
  intros [= <- _]; exact E.
Qed.

(** A trimmed text does not end with white space. *)
Lemma strip_last (b t : str) (c : ascii) :
  strip b = t ++ [c] -> isspace c = false.
Proof.
  unfold strip, rstrip; intros H.
  apply (f_equal (@rev ascii)) in H.
  rewrite rev_involutive, rev_app_distr in H; simpl in H.
  exact (dropwhile_head isspace _ c _ H).
Qed.

Lemma span_space (x : str) :
  exists w r,
    x = w ++ r /\ all_space w
    /\ (r = [] \/ exists c r', r = c :: r' /\ isspace c = false).
Proof.
  induction x as [|a x (w & r & -> & Hw & Hr)].
  - exists [], []; repeat split; [constructor | left; reflexivity].
  - destruct (isspace a) eqn:Ha.
    + exists (a :: w), r; repeat split; [constructor; assumption | exact Hr].
    + exists [], (a :: w ++ r); repeat split; [constructor | right; eauto].
Qed.

(** The grammar of the specification is accepted: a trimmed text of the
    form [* [TITLE](URL) - DESCRIPTION] is an instance of [item_grammar]. *)
Lemma spec_grammar_accepted (b : str) :
  spec_grammar (strip b) -> item_grammar (strip b).
Proof.
  intros (t & u & d & E & Ht0 & Ht & Hu0 & Hu).
  destruct (span_space d) as (w & r & -> & Hw & [-> | (c & r' & -> & Hc)]).
  - exfalso; rewrite app_nil_r in E.
    destruct w as [|a w _] using rev_ind.
    + assert (Hs : isspace " " = false); [|discriminate Hs].
      apply (strip_last b (lit "* [" ++ t ++ lit "](" ++ u ++ lit ") -")).
      rewrite E, <- !app_assoc; reflexivity.
    + apply Forall_app in Hw as [_ Hw]; inversion Hw as [|? ? Ha _]; subst.
      assert (Hs : isspace a = false); [|congruence].
      apply (strip_last b (lit "* [" ++ t ++ lit "](" ++ u ++ lit ") - " ++ w)).
      rewrite E, <- !app_assoc; reflexivity.
  - exists t, u, (lit " "), (lit " " ++ w), [c], r'.
    rewrite E; split; [rewrite <- !app_assoc; reflexivity|].
    repeat split; auto.
    + repeat constructor.
    + constructor; [reflexivity | exact Hw].
    + discriminate.
    + intros [-> | []]; discriminate Hc.
Qed.

(** C1, as stated, fails: an item with no space around the hyphen is
    parsed although its text is no instance of [* [TITLE](URL) - DESCRIPTION]. *)
Lemma parse_list_items_literal_separator_counterexample :
  parse_list_items [lit "* [Foo](http://a.com)-does foo"]
  = Ok [(lit "Foo", lit "http://a.com", lit "does foo")]
  /\ strip (lit "* [Foo](http://a.com)-does foo")
     = lit "* [Foo](http://a.com)-does foo"
  /\ ~ spec_grammar (lit "* [Foo](http://a.com)-does foo").
Proof.
  split; [reflexivity|]. split; [reflexivity|].
  intros H; apply spec_grammarb_complete in H; discriminate H.
Qed.

(** C1 (amended): [parse_list_items] returns a list exactly when the
    trimmed text of every assembled item starts with [* [TITLE](URL)]
    (both non-empty, without [\]] and [)]), then optional white space, a
    hyphen, optional white space and one or more characters other than a
    newline; otherwise it raises the error whose message ends with the raw
    text of the first item that does not, and returns nothing. *)
Theorem parse_list_items_grammar (lines : list str) :
  ((exists es, parse_list_items lines = Ok es)
   <-> Forall (fun b => item_grammar (strip b)) (items_of lines))
  /\ (forall pre b post,
        items_of lines = pre ++ b :: post ->
        Forall (fun b => item_grammar (strip b)) pre ->
        ~ item_grammar (strip b) ->
        parse_list_items lines
        = Raise (RuntimeError (lit "Could not parse list item: " ++ b))).
Proof.
  rewrite parse_list_items_items_of; split; [split|].
  - intros [es H]; apply parse_all_ok in H.
    induction H as [|b e bs es Hb _ IH]; constructor; [|exact IH].
    apply pattern_match_grammar; congruence.
  - intros H; apply parse_all_total.
    eapply Forall_impl; [|exact H].
    intros b Hb; apply pattern_match_grammar; exact Hb.
  - intros pre b post -> Hpre Hb.
    apply parse_all_fail.
    + eapply Forall_impl; [|exact Hpre].
      intros a Ha; apply pattern_match_grammar; exact Ha.
    + destruct (pattern_match (strip b)) eqn:E; [|reflexivity].
      exfalso; apply Hb, pattern_match_grammar; congruence.
Qed.

(** C2, as stated, fails: an empty line after a bullet is joined into the
    item as an empty piece, so the description gets two spaces where the
    grouping of the specification gives one. *)
Lemma parse_list_items_empty_line_counterexample :
  parse_list_items [lit "* [a](b) - x"; []; lit "y"]
  = Ok [(lit "a", lit "b", lit "x  y")]
  /\ parse_all (spec_items [lit "* [a](b) - x"; []; lit "y"])
     = Ok [(lit "a", lit "b", lit "x y")]
  /\ parse_list_items [lit "* bad"; []]
     = Raise (RuntimeError (lit "Could not parse list item: * bad ")).
Proof. repeat split. Qed.

(** C2 (amended): a line whose text after its leading white space begins
    with [* ] starts an item; every line after it up to the next such
    line, empty or not, is appended as one space and the trimmed line.
    The item so assembled is matched as a whole, and the lines after it
    are parsed on their own. *)
Theorem parse_list_items_grouping (b : str) (cs rest : list str) :
  is_bullet b = true ->
  Forall (fun l => is_bullet l = false) cs ->
  (rest = [] \/ exists h t, rest = h :: t /\ is_bullet h = true) ->
  assemble b cs
  = strip b ++ List.concat (map (fun l => lit " " ++ strip l) cs)
  /\ parse_list_items (b :: cs ++ rest)
     = match pattern_match (strip (assemble b cs)) with
       | None =>
           Raise (RuntimeError
                    (lit "Could not parse list item: " ++ assemble b cs))
       | Some e => es <- parse_list_items rest ;; Ok (e :: es)
       end.
Proof.
  intros Hb Hcs Hrest; split; [apply assemble_concat|].
  rewrite !parse_list_items_items_of; cbn [items_of]; rewrite Hb.
  rewrite (items_of_skip cs rest Hcs), (cont_text_run cs rest Hcs Hrest).
  rewrite <- assemble_concat; reflexivity.
Qed.

Lemma parse_list_items_grouping_witness :
  parse_list_items
    [lit "  * [Foo](http://a.com) -"; lit "      does foo"; [];
     lit "* [Bar](http://b.org) - bar"]
  = Ok [(lit "Foo", lit "http://a.com", lit "does foo");
        (lit "Bar", lit "http://b.org", lit "bar")].
Proof.
  assert (Hb : is_bullet (lit "  * [Foo](http://a.com) -") = true)
    by reflexivity.
  assert (Hcs : Forall (fun l => is_bullet l = false)
                  [lit "      does foo"; []])
    by (repeat constructor).
  assert (Hrest : [lit "* [Bar](http://b.org) - bar"] = [] \/
                  exists h t, [lit "* [Bar](http://b.org) - bar"] = h :: t
                              /\ is_bullet h = true)
    by (right; eexists; eexists; split; reflexivity).
  destruct (parse_list_items_grouping _ _ _ Hb Hcs Hrest) as [_ H].
  exact H.
Defined.

(** C10, as stated, fails: a line that is only a bullet marker has a
    trimmed text that does not begin with [* ], yet it starts an item, and
    a section made of it alone does not parse. *)
Lemma parse_list_items_bare_marker_counterexample :
  spec_bullet (lit "* ") = false
  /\ parse_list_items [lit "* "]
     = Raise (RuntimeError (lit "Could not parse list item: *")).
Proof. split; reflexivity. Qed.

(** C10 (amended): the lines before the first line whose text after its
    leading white space begins with [* ] are dropped: the result, a list
    or an error, is that of the remaining lines, and a section of such
    lines only gives the empty list. *)
Theorem parse_list_items_leading_lines (pre rest : list str) :
  Forall (fun l => is_bullet l = false) pre ->
  parse_list_items (pre ++ rest) = parse_list_items rest
  /\ parse_list_items pre = Ok [].
Proof.
  intros H; rewrite !parse_list_items_items_of.
  rewrite (items_of_skip pre rest H).
  pose proof (items_of_skip pre [] H) as E; rewrite app_nil_r in E.
  rewrite E; split; reflexivity.
Qed.

Lemma parse_list_items_leading_lines_witness :
  Forall (fun l => is_bullet l = false) [lit "Some tools:"; []; lit "*bold*"]
  /\ parse_list_items
       ([lit "Some tools:"; []; lit "*bold*"] ++ [lit "* [a](b) - c"])
     = parse_list_items [lit "* [a](b) - c"]
  /\ parse_list_items [lit "Some tools:"; []; lit "*bold*"] = Ok [].
Proof.
  assert (H : Forall (fun l => is_bullet l = false)
                [lit "Some tools:"; []; lit "*bold*"]).
  { repeat constructor. }
  split; [exact H|].
  exact (parse_list_items_leading_lines _ [lit "* [a](b) - c"] H).
Defined.

Lemma items_of_length (lines : list str) :
  List.length (items_of lines) = List.length (filter is_bullet lines).
Proof.
  induction lines as [|l ls IH]; simpl; [reflexivity|].
  destruct (is_bullet l); simpl; rewrite IH; reflexivity.
Qed.

(** C7: the empty input gives the empty list, and a returned list lines
    up with the assembled items of the input, first to last: its n-th
    entry is the match of the n-th item, one entry per bullet line, none
    merged, dropped or moved. *)
Theorem parse_list_items_order :
  parse_list_items [] = Ok []
  /\ forall lines es,
       parse_list_items lines = Ok es ->
       Forall2 (fun b e => pattern_match (strip b) = Some e)
               (items_of lines) es
       /\ List.length es = List.length (filter is_bullet lines).
Proof.
  split; [reflexivity|].
  intros lines es H.
  rewrite parse_list_items_items_of in H; apply parse_all_ok in H.
  split; [exact H|].
  rewrite <- items_of_length; symmetry; eapply Forall2_length; exact H.
Qed.

Lemma parse_list_items_order_witness :
  Forall2 (fun b e => pattern_match (strip b) = Some e)
          (items_of [lit "* [b](u) - x"; lit "* [a](v) - y"; lit "* [b](u) - x"])
          [(lit "b", lit "u", lit "x"); (lit "a", lit "v", lit "y");
           (lit "b", lit "u", lit "x")]
  /\ 3 = List.length
           (filter is_bullet
              [lit "* [b](u) - x"; lit "* [a](v) - y"; lit "* [b](u) - x"]).
Proof.
  exact (proj2 parse_list_items_order
           [lit "* [b](u) - x"; lit "* [a](v) - y"; lit "* [b](u) - x"]
           [(lit "b", lit "u", lit "x"); (lit "a", lit "v", lit "y");
            (lit "b", lit "u", lit "x")]
           eq_refl).
Defined.

Lemma truthy_nonempty (s : str) : s <> [] -> truthy s = true.
Proof. destruct s; [congruence | reflexivity]. Qed.

(** C9: every entry [parse_list_items] returns has a non-empty title, URL
    and description, so [render_html] writes its description: the list
    item of the entry is the link followed by [ - ] and the escaped
    description. *)
Theorem parse_list_items_nonempty_fields (lines : list str) (es : list entry) :
  parse_list_items lines = Ok es ->
  Forall (fun e =>
            title_of e <> [] /\ url_of e <> [] /\ desc_of e <> []
            /\ render_li e
               = lit "    <li><a href=" ++ [dquote] ++ escape (url_of e) true
                   ++ [dquote] ++ lit ">" ++ escape (title_of e) true
                   ++ lit "</a>" ++ lit " - " ++ escape (desc_of e) true
                   ++ lit "</li>") es.
Proof.
  intros H; rewrite parse_list_items_items_of in H; apply parse_all_ok in H.
  induction H as [|b [[t u] d] bs es Hb _ IH]; constructor; [|exact IH].
  destruct (pattern_match_sound _ t u d Hb)
    as (w1 & w2 & rest & _ & Ht & _ & Hu & _ & _ & _ & Hd & _).
  unfold title_of, url_of, desc_of, render_li; cbn [fst snd].
  rewrite (truthy_nonempty d Hd), <- !app_assoc.
  repeat split; assumption.
Qed.

Lemma parse_list_items_nonempty_fields_witness :
  Forall (fun e =>
            title_of e <> [] /\ url_of e <> [] /\ desc_of e <> []
            /\ render_li e
               = lit "    <li><a href=" ++ [dquote] ++ escape (url_of e) true
                   ++ [dquote] ++ lit ">" ++ escape (title_of e) true
                   ++ lit "</a>" ++ lit " - " ++ escape (desc_of e) true
                   ++ lit "</li>")
         [(lit "Foo", lit "http://a.com", lit "does foo")].
Proof.
  exact (parse_list_items_nonempty_fields
           [lit "* [Foo](http://a.com) - does foo"]
           [(lit "Foo", lit "http://a.com", lit "does foo")] eq_refl).
Defined.

(** ** [render_html] *)

Lemma join_unlines (ls : list str) :
  join [Re.newline] ls ++ [Re.newline] = unlines ls \/ ls = [].
Proof.
  induction ls as [|a ls IH]; [right; reflexivity | left].
  destruct ls as [|b ls];
    [unfold unlines; simpl; rewrite app_nil_r; reflexivity|].
  destruct IH as [IH | IH]; [|discriminate].
  change (unlines (a :: b :: ls)) with ((a ++ [Re.newline]) ++ unlines (b :: ls)).
  rewrite <- IH.
  change (join [Re.newline] (a :: b :: ls))
    with (a ++ [Re.newline] ++ join [Re.newline] (b :: ls)).
  rewrite <- !app_assoc; reflexivity.
Qed.

Lemma unlines_app (xs ys : list str) :
  unlines (xs ++ ys) = unlines xs ++ unlines ys.
Proof. unfold unlines; rewrite map_app, concat_app; reflexivity. Qed.

Lemma render_loop (tools : list entry) (lines : list str) :
  fold_left (fun lines e => lines ++ [render_li e]) tools lines
  = lines ++ map render_li tools.
Proof.
  revert lines; induction tools as [|e tools IH]; intros lines; simpl.
  - rewrite app_nil_r; reflexivity.
  - rewrite IH, <- app_assoc; reflexivity.
Qed.

Lemma render_html_unlines (tools : list entry) :
  render_html tools
  = unlines header ++ unlines (map render_li tools) ++ unlines footer.
Proof.
  unfold render_html; rewrite render_loop.
  destruct (join_unlines ((header ++ map render_li tools) ++ footer))
    as [-> | E].
  - rewrite !unlines_app, <- app_assoc; reflexivity.
  - apply app_eq_nil in E as [_ E]; discriminate E.
Qed.

Lemma render_li_fields (e : entry) :
  render_li e
  = lit "    <li><a href=" ++ [dquote] ++ escape (url_of e) true ++ [dquote]
      ++ lit ">" ++ escape (title_of e) true ++ lit "</a>"
      ++ (if truthy (desc_of e) then lit " - " ++ escape (desc_of e) true
          else [])
      ++ lit "</li>".
Proof.
  destruct e as [[t u] d]; unfold render_li, title_of, url_of, desc_of.
  cbn [fst snd]; destruct (truthy d); rewrite <- !app_assoc; reflexivity.
Qed.

(** ** Escaping *)

Lemma replace_char_app (old : ascii) (new a b : str) :
  replace_char old new (a ++ b)
  = replace_char old new a ++ replace_char old new b.
Proof.
  induction a as [|c a IH]; simpl; [reflexivity|].
  destruct (Ascii.eqb c old); rewrite IH, <- ?app_assoc; reflexivity.
Qed.

Lemma escape_app (a b : str) (quote : bool) :
  escape (a ++ b) quote = escape a quote ++ escape b quote.
Proof.
  unfold escape; destruct quote; rewrite !replace_char_app; reflexivity.
Qed.

Ltac each_char c :=
  destruct c as [[] [] [] [] [] [] [] []]; vm_compute; repeat split.

Lemma escape_char (c : ascii) : escape [c] true = entity c.
Proof. each_char c. Qed.

(** [html.escape] writes the entity of each character, one after the
    other. *)
Lemma escape_entities (s : str) :
  escape s true = List.concat (map entity s).
Proof.
  induction s as [|c s IH]; [reflexivity|].
  change (c :: s) with ([c] ++ s).
  rewrite escape_app, escape_char, IH; reflexivity.
Qed.

Lemma count_app (x : ascii) (a b : str) :
  count x (a ++ b) = count x a + count x b.
Proof. apply count_occ_app. Qed.

Lemma count_entity (c : ascii) :
  count "<" (entity c) = 0 /\ count ">" (entity c) = 0
  /\ count dquote (entity c) = 0 /\ count squote (entity c) = 0.
Proof. each_char c. Qed.

Lemma count_escape (s : str) :
  count "<" (escape s true) = 0 /\ count ">" (escape s true) = 0
  /\ count dquote (escape s true) = 0 /\ count squote (escape s true) = 0.
Proof.
  rewrite escape_entities; induction s as [|c s (H1 & H2 & H3 & H4)];
    [repeat split|].
  destruct (count_entity c) as (E1 & E2 & E3 & E4).
  cbn [map List.concat]; rewrite !count_app, H1, H2, H3, H4, E1, E2, E3, E4.
  repeat split.
Qed.

Lemma startswith_weaken (p s b : str) :
  startswith p s = true -> startswith p (s ++ b) = true.
Proof.
  intros H; apply startswith_inv in H as [r ->].
  rewrite <- app_assoc; apply startswith_app.
Qed.

Lemma amp_escaped_app (a b : str) :
  amp_escaped a = true -> amp_escaped b = true -> amp_escaped (a ++ b) = true.
Proof.
  intros Ha Hb; induction a as [|c a IH]; [exact Hb|].
  cbn [amp_escaped] in Ha; apply andb_true_iff in Ha as [Hc Ha].
  change ((c :: a) ++ b) with (c :: (a ++ b)); cbn [amp_escaped].
  rewrite (IH Ha), andb_true_r.
  apply orb_true_iff in Hc as [Hc | Hc]; apply orb_true_iff;
    [left; exact Hc | right].
  apply existsb_exists in Hc as (ent & Hin & Hent).
  apply existsb_exists; exists ent; split; [exact Hin|].
  exact (startswith_weaken ent (c :: a) b Hent).
Qed.

Lemma amp_escaped_entity (c : ascii) : amp_escaped (entity c) = true.
Proof. each_char c. Qed.

Lemma amp_escaped_escape (s : str) : amp_escaped (escape s true) = true.
Proof.
  rewrite escape_entities; induction s as [|c s IH]; [reflexivity|].
  cbn [map List.concat]; apply amp_escaped_app;
    [apply amp_escaped_entity | exact IH].
Qed.

Lemma contains_unfold (needle hay : str) :
  contains needle hay
  = startswith needle hay
    || match hay with [] => false | _ :: hay' => contains needle hay' end.
Proof. destruct hay; reflexivity. Qed.

Lemma contains_middle (needle a b : str) :
  contains needle (a ++ needle ++ b) = true.
Proof.
  induction a as [|c a IH].
  - rewrite contains_unfold; simpl app; rewrite startswith_app; reflexivity.
  - rewrite contains_unfold; change ((c :: a) ++ needle ++ b)
      with (c :: (a ++ needle ++ b)); cbv beta iota; rewrite IH.
    apply orb_true_r.
Qed.

Lemma entity_escape (s : str) : escape s true = escaped s.
Proof. apply escape_entities. Qed.

(** The loop body writes the list item of the specification. *)
Lemma render_li_markup (e : entry) : render_li e = item_markup e.
Proof.
  rewrite render_li_fields; unfold item_markup.
  rewrite !entity_escape; reflexivity.
Qed.

Lemma render_li_counts (e : entry) :
  count "<" (render_li e) = 4 /\ count ">" (render_li e) = 4
  /\ count dquote (render_li e) = 2 /\ count squote (render_li e) = 0
  /\ amp_escaped (render_li e) = true.
Proof.
  rewrite render_li_fields.
  destruct (count_escape (url_of e)) as (U1 & U2 & U3 & U4).
  destruct (count_escape (title_of e)) as (T1 & T2 & T3 & T4).
  destruct (count_escape (desc_of e)) as (D1 & D2 & D3 & D4).
  assert (A : amp_escaped
                (if truthy (desc_of e)
                 then lit " - " ++ escape (desc_of e) true else []) = true).
  { destruct (truthy (desc_of e)); [|reflexivity].
    apply amp_escaped_app; [reflexivity | apply amp_escaped_escape]. }
  repeat split.
  - destruct (truthy (desc_of e)); rewrite !count_app, U1, T1, ?D1;
      reflexivity.
  - destruct (truthy (desc_of e)); rewrite !count_app, U2, T2, ?D2;
      reflexivity.
  - destruct (truthy (desc_of e)); rewrite !count_app, U3, T3, ?D3;
      reflexivity.
  - destruct (truthy (desc_of e)); rewrite !count_app, U4, T4, ?D4;
      reflexivity.
  - repeat (apply amp_escaped_app); try reflexivity;
      try apply amp_escaped_escape.
    exact A.
Qed.

Lemma render_html_item (pre : list entry) (e : entry) (post : list entry) :
  render_html (pre ++ e :: post)
  = (unlines header ++ unlines (map render_li pre))
      ++ render_li e ++ ["010"%char]
      ++ unlines (map render_li post) ++ unlines footer.
Proof.
  rewrite render_html_unlines, map_app, unlines_app.
  cbn [map]; unfold unlines at 3; cbn [map List.concat].
  fold (unlines (map render_li post)).
  rewrite <- !app_assoc; reflexivity.
Qed.

(** C5: for every list of entries [render_html] returns the ten lines
    of the fixed header (doctype, [head] with the UTF-8 charset and the
    title, the link to the repository, the [h1] heading and the opening
    [ul]), then one line per entry in the order of the list, then the
    three closing lines, each line ended by a newline; the line of an
    entry is the link, with the escaped URL as [href] and the escaped
    title as text, followed by [ - ] and the escaped description when
    that is not empty; the text ends with [</html>] and one newline, and
    the empty list gives the header directly followed by the closing
    lines, with no list item. *)
Theorem render_html_document (tools : list entry) :
  render_html tools
  = unlines
      [ lit "<!doctype html>";
        lit "<html>";
        lit "<head>";
        lit "  <meta charset=" ++ ["034"%char] ++ lit "utf-8"
          ++ ["034"%char] ++ lit ">";
        lit "  <title>eliben browser-tools</title>";
        lit "</head>";
        lit "<body>";
        lit "  See <a href=" ++ ["034"%char]
          ++ lit "https://github.com/eliben/browser-tools" ++ ["034"%char]
          ++ lit ">the GitHub repository</a> for details";
        lit "  <h1>List of tools</h1>";
        lit "  <ul>" ]
    ++ unlines
         (map (fun e =>
                 lit "    <li><a href=" ++ ["034"%char]
                   ++ List.concat (map entity (url_of e))
                   ++ ["034"%char] ++ lit ">"
                   ++ List.concat (map entity (title_of e)) ++ lit "</a>"
                   ++ (if truthy (desc_of e)
                       then lit " - "
                              ++ List.concat (map entity (desc_of e))
                       else [])
                   ++ lit "</li>") tools)
    ++ unlines [lit "  </ul>"; lit "</body>"; lit "</html>"]
  /\ (exists body,
        render_html tools = body ++ lit "</html>" ++ ["010"%char])
  /\ render_html []
     = unlines
         [ lit "<!doctype html>";
           lit "<html>";
           lit "<head>";
           lit "  <meta charset=" ++ ["034"%char] ++ lit "utf-8"
             ++ ["034"%char] ++ lit ">";
           lit "  <title>eliben browser-tools</title>";
           lit "</head>";
           lit "<body>";
           lit "  See <a href=" ++ ["034"%char]
             ++ lit "https://github.com/eliben/browser-tools" ++ ["034"%char]
             ++ lit ">the GitHub repository</a> for details";
           lit "  <h1>List of tools</h1>";
           lit "  <ul>";
           lit "  </ul>";
           lit "</body>";
           lit "</html>" ]
  /\ contains (lit "<li") (render_html []) = false.
Proof.
  split; [|split; [|split; reflexivity]].
  - rewrite render_html_unlines.
    rewrite (map_ext render_li item_markup render_li_markup).
    reflexivity.
  - exists (unlines header ++ unlines (map render_li tools)
            ++ unlines [lit "  </ul>"; lit "</body>"]).
    rewrite render_html_unlines, <- !app_assoc; reflexivity.
Qed.

(** C6: the list item written for an entry is the fixed markup around
    the escaped URL, title and description, where escaping writes,
    character by character, the entity of each of the five characters
    and every other character as it is: nothing else is done to the
    fields.  So in the item the only [<], [>] and double quotes are
    those of the markup itself (four, four and two), there is no single
    quote, and every ampersand starts an entity; the title [R&D Tool]
    gives the link text [R&amp;D Tool]; and the item is a line of the
    page of every list the entry is in. *)
Theorem render_li_escaped (e : entry) :
  render_li e
  = lit "    <li><a href=" ++ ["034"%char]
      ++ List.concat (map entity (url_of e))
      ++ ["034"%char] ++ lit ">"
      ++ List.concat (map entity (title_of e)) ++ lit "</a>"
      ++ (if truthy (desc_of e)
          then lit " - " ++ List.concat (map entity (desc_of e)) else [])
      ++ lit "</li>"
  /\ (forall s, escape s true = List.concat (map entity s))
  /\ count "<" (render_li e) = 4 /\ count ">" (render_li e) = 4
  /\ count "034" (render_li e) = 2 /\ count "039" (render_li e) = 0
  /\ amp_escaped (render_li e) = true
  /\ (forall url desc,
        contains (lit ">R&amp;D Tool</a>")
                 (render_li (lit "R&D Tool", url, desc)) = true)
  /\ (forall pre post,
        exists a b,
          render_html (pre ++ e :: post)
          = a ++ render_li e ++ ["010"%char] ++ b).
Proof.
  split; [exact (render_li_markup e)|].
  split; [exact escape_entities|].
  destruct (render_li_counts e) as (H1 & H2 & H3 & H4 & H5).
  repeat split; try assumption.
  - intros url desc.
    assert (E : render_li (lit "R&D Tool", url, desc)
                = (lit "    <li><a href=" ++ [dquote] ++ escape url true
                     ++ [dquote])
                    ++ lit ">R&amp;D Tool</a>"
                    ++ (if truthy desc then lit " - " ++ escape desc true
                        else [])
                    ++ lit "</li>").
    { rewrite render_li_fields; unfold title_of, url_of, desc_of.
      cbn [fst snd]; rewrite <- !app_assoc; reflexivity. }
    rewrite E; apply contains_middle.
  - intros pre post; eexists; eexists; apply render_html_item.
Qed.

(** ** The driver *)

(** [main] call by call: the result of the first call or component that
    raises, in the state the reading left, else the writing and printing
    of the page. *)
Lemma main_unfold (world : Type) (os : IO.system world) (w : world) :
  main os w
  = match IO.read_text os readme_path w with
    | (Raise e, w1) => (Raise e, w1)
    | (Ok text, w1) =>
        match extract_section (splitlines text) with
        | Raise e => (Raise e, w1)
        | Ok section_lines =>
            match parse_list_items section_lines with
            | Raise e => (Raise e, w1)
            | Ok tools => write_page os (render_html tools) w1
            end
        end
    end.
Proof.
  unfold main, write_page, IO.bind, IO.lift.
  destruct (IO.read_text os readme_path w) as [[text|e] w1]; [|reflexivity].
  destruct (extract_section (splitlines text)) as [sec|e]; [|reflexivity].
  destruct (parse_list_items sec) as [tools|e]; reflexivity.
Qed.

(** C8: on every system, when the README was read and [extract_section]
    or [parse_list_items] raises, [main] ends with that exception and a
    non-zero exit status in the state the reading left: [write_text] and
    [print] are not called, so nothing of the page is written. *)
Theorem main_aborts_without_writing
        (world : Type) (os : IO.system world) (w w1 : world)
        (text : str) (e : exn) :
  IO.read_text os readme_path w = (Ok text, w1) ->
  (extract_section (splitlines text) = Raise e
   \/ exists section_lines,
        extract_section (splitlines text) = Ok section_lines
        /\ parse_list_items section_lines = Raise e) ->
  main os w = (Raise e, w1) /\ IO.exit_status (fst (main os w)) = 1.
Proof.
  intros Hr H.
  assert (E : main os w = (Raise e, w1)).
  { rewrite main_unfold, Hr.
    destruct H as [He | (section_lines & He & Hp)]; rewrite He;
      [|rewrite Hp]; reflexivity. }
  rewrite E; split; reflexivity.
Qed.

Lemma main_aborts_without_writing_witness :
  main Disk.os readme_world
  = (Raise (RuntimeError
              (lit "Could not parse list item: * [Foo](http://a.com) no separator")),
     readme_world)
  /\ IO.exit_status (fst (main Disk.os readme_world)) = 1.
Proof.
  refine (main_aborts_without_writing _ Disk.os readme_world readme_world
            _ _ eq_refl _).
  right; eexists; split; reflexivity.
Defined.

(** ** The scenarios of the specification, run on the model *)

Example scenario_single_item :
  parse_list_items [lit "* [Foo](http://a.com) - does foo"]
  = Ok [(lit "Foo", lit "http://a.com", lit "does foo")]
  /\ render_li (lit "Foo", lit "http://a.com", lit "does foo")
     = lit "    <li><a href=" ++ [dquote] ++ lit "http://a.com" ++ [dquote]
         ++ lit ">Foo</a> - does foo</li>".
Proof. split; reflexivity. Qed.

Example scenario_continuation_line :
  parse_list_items [lit "* [Foo](http://a.com) - does"; lit "  foo and bar"]
  = Ok [(lit "Foo", lit "http://a.com", lit "does foo and bar")].
Proof. reflexivity. Qed.

Example scenario_missing_separator :
  parse_list_items [lit "* [Foo](http://a.com) does foo"]
  = Raise (RuntimeError
             (lit "Could not parse list item: * [Foo](http://a.com) does foo")).
Proof. reflexivity. Qed.

Example scenario_empty_section :
  fst (main Disk.os empty_list_world) = Ok tt
  /\ Disk.text_at (snd (main Disk.os empty_list_world)) index_path
     = Some (unlines (header ++ footer))
  /\ Disk.stdout (snd (main Disk.os empty_list_world))
     = [lit "Wrote index.html"].
Proof. repeat split; vm_compute; reflexivity. Qed.

Example scenario_ampersand_title :
  escape (lit "R&D Tool") true = lit "R&amp;D Tool".
Proof. reflexivity. Qed.

(** The hyphen that ends the link is the first one after the URL: a
    later [ - ] stays in the description. *)
Example scenario_hyphen_in_description :
  parse_list_items [lit "* [a-b](http://x-y.org) - one - two"]
  = Ok [(lit "a-b", lit "http://x-y.org", lit "one - two")].
Proof. reflexivity. Qed.

(** * Further properties of the code *)

(** ** Trimming *)

Lemma dropwhile_all (p : ascii -> bool) (w s : str) :
  Forall (fun c => p c = true) w -> dropwhile p (w ++ s) = dropwhile p s.
Proof.
  induction 1 as [|c w Hc _ IH]; simpl; [reflexivity|].
  rewrite Hc; exact IH.
Qed.

Lemma dropwhile_split (p : ascii -> bool) (s : str) :
  exists w, s = w ++ dropwhile p s /\ Forall (fun c => p c = true) w.
Proof.
  induction s as [|c s (w & E & Hw)]; simpl.
  - exists []; split; [reflexivity | constructor].
  - destruct (p c) eqn:Hc.
    + exists (c :: w); split; [simpl; f_equal; exact E | constructor; auto].
    + exists []; split; [reflexivity | constructor].
Qed.

Lemma all_space_rev (w : str) : all_space w -> all_space (rev w).
Proof. unfold all_space; apply Forall_rev. Qed.

Lemma lstrip_space_app (w l : str) :
  all_space w -> lstrip (w ++ l) = lstrip l.
Proof. apply dropwhile_all. Qed.

Lemma rstrip_app_space (l w : str) :
  all_space w -> rstrip (l ++ w) = rstrip l.
Proof.
  intros Hw; unfold rstrip; rewrite rev_app_distr.
  rewrite (dropwhile_all isspace (rev w) (rev l) (all_space_rev w Hw)).
  reflexivity.
Qed.

Lemma rstrip_last_nonspace (x : str) (c : ascii) :
  isspace c = false -> rstrip (x ++ [c]) = x ++ [c].
Proof.
  intros Hc; unfold rstrip; rewrite rev_app_distr; simpl.
  rewrite Hc; simpl; rewrite rev_involutive; reflexivity.
Qed.

Lemma strip_space_l (w l : str) : all_space w -> strip (w ++ l) = strip l.
Proof. intros Hw; unfold strip; rewrite lstrip_space_app; auto. Qed.

Lemma strip_all_space (w : str) : all_space w -> strip w = [].
Proof.
  intros Hw; rewrite <- (app_nil_r w), strip_space_l; auto.
Qed.

Lemma strip_space_r (l w : str) : all_space w -> strip (l ++ w) = strip l.
Proof.
  intros Hw; induction l as [|c l IH].
  - simpl; rewrite strip_all_space; auto.
  - destruct (isspace c) eqn:Hc.
    + assert (Hs : all_space [c]) by (repeat constructor; exact Hc).
      change ((c :: l) ++ w) with ([c] ++ (l ++ w)).
      change (c :: l) with ([c] ++ l).
      rewrite (strip_space_l [c] (l ++ w) Hs), (strip_space_l [c] l Hs).
      exact IH.
    + unfold strip, lstrip; simpl; rewrite Hc.
      apply (rstrip_app_space (c :: l) w Hw).
Qed.

(** A line is some white space, its trimmed text, and white space. *)
Lemma strip_split (l : str) :
  exists w1 w2, l = w1 ++ strip l ++ w2 /\ all_space w1 /\ all_space w2.
Proof.
  destruct (dropwhile_split isspace l) as (w1 & E1 & H1).
  destruct (dropwhile_split isspace (rev (lstrip l))) as (w2 & E2 & H2).
  exists w1, (rev w2); repeat split.
  - rewrite E1 at 1; f_equal; unfold strip, rstrip.
    rewrite <- rev_app_distr; fold (lstrip l).
    rewrite <- E2, rev_involutive; reflexivity.
  - exact H1.
  - apply all_space_rev; exact H2.
Qed.

Lemma strip_fixed (c : ascii) (x : str) (c' : ascii) (y : str) :
  isspace c = false -> isspace c' = false ->
  c :: x = y ++ [c'] -> strip (c :: x) = c :: x.
Proof.
  intros Hc Hc' E; unfold strip, lstrip; simpl; rewrite Hc.
  rewrite E; apply rstrip_last_nonspace; exact Hc'.
Qed.

Lemma isspace_lower_char (c : ascii) : isspace (lower_char c) = isspace c.
Proof. destruct c as [[] [] [] [] [] [] [] []]; vm_compute; reflexivity. Qed.

Lemma dropwhile_lower (s : str) :
  dropwhile isspace (lower s) = lower (dropwhile isspace s).
Proof.
  induction s as [|c s IH]; simpl; [reflexivity|].
  rewrite isspace_lower_char; destruct (isspace c); [exact IH | reflexivity].
Qed.

Lemma rev_lower (s : str) : rev (lower s) = lower (rev s).
Proof. unfold lower; symmetry; apply map_rev. Qed.

(** Trimming and lower-casing commute. *)
Lemma strip_lower (s : str) : strip (lower s) = lower (strip s).
Proof.
  unfold strip, rstrip, lstrip.
  rewrite dropwhile_lower, rev_lower, dropwhile_lower, rev_lower.
  reflexivity.
Qed.

Lemma all_space_lower (w : str) : all_space w -> all_space (lower w).
Proof.
  unfold all_space, lower; intros H; apply Forall_map.
  eapply Forall_impl; [|exact H].
  intros c Hc; rewrite isspace_lower_char; exact Hc.
Qed.

(** ** [extract_section] *)

(** X1: the marker lines are exactly the lines made of white space, the
    heading text in any letter case, and white space. *)
Theorem is_heading_iff (line : str) :
  is_heading line = true
  <-> exists w1 s w2,
        line = w1 ++ s ++ w2 /\ all_space w1 /\ all_space w2
        /\ lower s = lit "## list of tools".
Proof.
  unfold is_heading; rewrite str_eqb_eq; split.
  - intros H; destruct (strip_split line) as (w1 & w2 & E & H1 & H2).
    exists w1, (strip line), w2; auto.
  - intros (w1 & s & w2 & -> & H1 & H2 & Hs).
    rewrite <- strip_lower; unfold lower; rewrite !map_app.
    fold (lower w1) (lower s) (lower w2).
    rewrite strip_space_l, strip_space_r, Hs by (apply all_space_lower; auto).
    reflexivity.
Qed.

(** ** [parse_list_items] *)

Lemma is_bullet_indent (w l : str) :
  all_space w -> is_bullet (w ++ l) = is_bullet l.
Proof. intros Hw; unfold is_bullet; rewrite lstrip_space_app; auto. Qed.

Lemma items_of_same (lines lines' : list str) :
  Forall2 (fun l l' => is_bullet l' = is_bullet l /\ strip l' = strip l)
          lines lines' ->
  cont_text lines' = cont_text lines /\ items_of lines' = items_of lines.
Proof.
  induction 1 as [|l l' ls ls' [Hb Hs] _ [IHc IHi]]; [split; reflexivity|].
  cbn [cont_text items_of]; rewrite Hb, Hs, IHc, IHi; split; reflexivity.
Qed.

(** X2: white space put before the lines, bullet lines and continuation
    lines alike, changes nothing: the result, a list or an error with its
    message, is the same. *)
Theorem parse_list_items_indent (lines lines' : list str) :
  Forall2 (fun l l' => exists w, all_space w /\ l' = w ++ l) lines lines' ->
  parse_list_items lines' = parse_list_items lines.
Proof.
  intros H; rewrite !parse_list_items_items_of; f_equal.
  apply items_of_same.
  eapply Forall2_impl; [|exact H].
  intros l l' (w & Hw & ->); split;
    [apply is_bullet_indent | apply strip_space_l]; exact Hw.
Qed.

Lemma parse_list_items_indent_witness :
  parse_list_items [lit "   * [Foo](http://a.com) -"; lit "     does foo"]
  = parse_list_items [lit "* [Foo](http://a.com) -"; lit "does foo"].
Proof.
  apply parse_list_items_indent.
  constructor; [exists (lit "   "); split; [repeat constructor | reflexivity]|].
  constructor; [exists (lit "     "); split; [repeat constructor | reflexivity]|].
  constructor.
Defined.

Lemma cont_text_before_bullet (a : list str) (h : str) (t : list str) :
  is_bullet h = true -> cont_text (a ++ h :: t) = cont_text a.
Proof.
  intros Hh; induction a as [|l a IH]; cbn [app cont_text].
  - rewrite Hh; reflexivity.
  - destruct (is_bullet l); [reflexivity | rewrite IH; reflexivity].
Qed.

Lemma items_of_app (a : list str) (h : str) (t : list str) :
  is_bullet h = true ->
  items_of (a ++ h :: t) = items_of a ++ items_of (h :: t).
Proof.
  intros Hh; induction a as [|l a IH]; [reflexivity|].
  cbn [app items_of]; rewrite IH, (cont_text_before_bullet a h t Hh).
  destruct (is_bullet l); reflexivity.
Qed.

Lemma parse_all_app (xs ys : list str) :
  parse_all (xs ++ ys)
  = es1 <- parse_all xs ;; es2 <- parse_all ys ;; Ok (es1 ++ es2).
Proof.
  induction xs as [|b xs IH]; simpl.
  - destruct (parse_all ys); reflexivity.
  - destruct (pattern_match (strip b)); [|reflexivity].
    rewrite IH; destruct (parse_all xs); simpl; [|reflexivity].
    destruct (parse_all ys); reflexivity.
Qed.

(** X3: cut before a bullet line, a section parses as its two parts one
    after the other: the entries of the first part followed by those of
    the second, or the error of the first part that fails. *)
Theorem parse_list_items_app (a : list str) (h : str) (t : list str) :
  is_bullet h = true ->
  parse_list_items (a ++ h :: t)
  = es1 <- parse_list_items a ;;
    es2 <- parse_list_items (h :: t) ;; Ok (es1 ++ es2).
Proof.
  intros Hh; rewrite !parse_list_items_items_of.
  rewrite (items_of_app a h t Hh); apply parse_all_app.
Qed.

Lemma parse_list_items_app_witness :
  parse_list_items
    ([lit "* [a](u) - x"; lit "more"] ++ lit "* [b](v) - y" :: [lit "* bad"])
  = es1 <- parse_list_items [lit "* [a](u) - x"; lit "more"] ;;
    es2 <- parse_list_items (lit "* [b](v) - y" :: [lit "* bad"]) ;;
    Ok (es1 ++ es2).
Proof.
  exact (parse_list_items_app
           [lit "* [a](u) - x"; lit "more"] (lit "* [b](v) - y")
           [lit "* bad"] eq_refl).
Defined.

Lemma blank_lstrip (l : str) : blank l -> lstrip l = [].
Proof.
  unfold blank, strip; intros H.
  destruct (lstrip l) as [|c x] eqn:E; [reflexivity|].
  pose proof (dropwhile_head isspace l c x E) as Hc.
  destruct (rstrip_cons_nonspace c x Hc) as [t Ht]; congruence.
Qed.

Lemma blank_not_bullet (l : str) : blank l -> is_bullet l = false.
Proof. intros H; unfold is_bullet; rewrite (blank_lstrip l H); reflexivity. Qed.

Lemma cont_text_blank_tail (r ws rest : list str) :
  Forall blank ws ->
  (rest = [] \/ exists h t, rest = h :: t /\ is_bullet h = true) ->
  exists sp,
    all_space sp /\ cont_text (r ++ ws ++ rest) = cont_text (r ++ rest) ++ sp.
Proof.
  intros Hws Hrest; induction r as [|l r (sp & Hsp & IH)].
  - assert (E : cont_text rest = []).
    { destruct Hrest as [-> | (h & t & -> & Hh)]; simpl; [|rewrite Hh];
        reflexivity. }
    cbn [app]; rewrite E; clear E.
    induction Hws as [|l ws Hl _ (sp & Hsp & IH)].
    + exists []; split; [constructor|].
      destruct Hrest as [-> | (h & t & -> & Hh)]; simpl; [|rewrite Hh];
        reflexivity.
    + exists (lit " " ++ sp); split; [constructor; [reflexivity | exact Hsp]|].
      cbn [app cont_text]; rewrite (blank_not_bullet l Hl), Hl, IH.
      reflexivity.
  - cbn [app cont_text]; destruct (is_bullet l).
    + exists []; split; [constructor | reflexivity].
    + exists sp; split; [exact Hsp|].
      rewrite IH, <- !app_assoc; reflexivity.
Qed.

Lemma items_of_blank_lines (pre ws rest : list str) :
  Forall blank ws ->
  (rest = [] \/ exists h t, rest = h :: t /\ is_bullet h = true) ->
  Forall2 (fun b b' => strip b' = strip b)
          (items_of (pre ++ rest)) (items_of (pre ++ ws ++ rest)).
Proof.
  intros Hws Hrest; induction pre as [|l pre IH].
  - cbn [app]; rewrite (items_of_skip ws rest).
    + induction (items_of rest); constructor; auto.
    + eapply Forall_impl; [|exact Hws]; apply blank_not_bullet.
  - cbn [app items_of]; destruct (is_bullet l); [|exact IH].
    constructor; [|exact IH].
    destruct (cont_text_blank_tail pre ws rest Hws Hrest) as (sp & Hsp & ->).
    rewrite app_assoc; apply strip_space_r; exact Hsp.
Qed.

Lemma parse_all_same_strip (bs bs' : list str) (es : list entry) :
  Forall2 (fun b b' => strip b' = strip b) bs bs' ->
  parse_all bs' = Ok es <-> parse_all bs = Ok es.
Proof.
  intros H; rewrite !parse_all_ok; revert es.
  induction H as [|b b' bs bs' Hb _ IH]; intros es; split; intros HF;
    inversion HF; subst; constructor;
    try (apply IH; assumption); congruence.
Qed.

(** X4: empty and white-space lines just before a bullet line or at the
    end of the section do not change a successful result: with and
    without them the same entries are returned. *)
Theorem parse_list_items_blank_lines
        (pre ws rest : list str) (es : list entry) :
  Forall blank ws ->
  (rest = [] \/ exists h t, rest = h :: t /\ is_bullet h = true) ->
  parse_list_items (pre ++ ws ++ rest) = Ok es
  <-> parse_list_items (pre ++ rest) = Ok es.
Proof.
  intros Hws Hrest; rewrite !parse_list_items_items_of.
  apply parse_all_same_strip, items_of_blank_lines; assumption.
Qed.

Lemma parse_list_items_blank_lines_witness :
  parse_list_items
    ([lit "* [a](u) - x"] ++ [[]; lit "  "] ++ [lit "* [b](v) - y"])
  = Ok [(lit "a", lit "u", lit "x"); (lit "b", lit "v", lit "y")].
Proof.
  apply (parse_list_items_blank_lines
           [lit "* [a](u) - x"] [[]; lit "  "] [lit "* [b](v) - y"]).
  - repeat constructor.
  - right; eexists; eexists; split; reflexivity.
  - reflexivity.
Defined.

(** *** The groups of a match *)

Section GreedyFacts.
Variable A : Type.
Implicit Types (kk : str -> str -> option A).

(** A greedy repetition that can stop at the end of the longest run
    stops there. *)
Lemma star_greedy (cls : ascii -> bool) (m r : str) kk (x : A) :
  forallb cls m = true ->
  (r = [] \/ exists c r', r = c :: r' /\ cls c = false) ->
  kk m r = Some x -> Re.star cls (m ++ r) kk = Some x.
Proof.
  intros Hm Hr; revert kk; induction m as [|c m IH]; intros kk Hk.
  - destruct Hr as [-> | (c & r' & -> & Hc)]; simpl; [|rewrite Hc]; exact Hk.
  - simpl in Hm; apply andb_true_iff in Hm as [Hc Hm].
    cbn [app Re.star]; rewrite Hc.
    rewrite (IH Hm (fun m t => kk (c :: m) t) Hk); reflexivity.
Qed.

Lemma plus_greedy (cls : ascii -> bool) (m r : str) kk (x : A) :
  m <> [] -> forallb cls m = true ->
  (r = [] \/ exists c r', r = c :: r' /\ cls c = false) ->
  kk m r = Some x -> Re.plus cls (m ++ r) kk = Some x.
Proof.
  destruct m as [|c m]; [congruence|]; intros _ Hm Hr Hk.
  simpl in Hm; apply andb_true_iff in Hm as [Hc Hm].
  cbn [app]; unfold Re.plus; rewrite Hc.
  apply (star_greedy cls m r (fun m t => kk (c :: m) t) x Hm Hr Hk).
Qed.
End GreedyFacts.

(** The groups returned for a text laid out with the longest runs. *)
Lemma pattern_match_exact (t u w1 w2 : str) (c : ascii) (d rest : str) :
  t <> [] -> ~ In "]"%char t -> u <> [] -> ~ In ")"%char u ->
  all_space w1 -> all_space w2 ->
  isspace c = false -> ~ In Re.newline (c :: d) ->
  (rest = [] \/ exists r', rest = Re.newline :: r') ->
  pattern_match (lit "* [" ++ t ++ lit "](" ++ u ++ lit ")"
                   ++ w1 ++ lit "-" ++ w2 ++ (c :: d) ++ rest)
  = Some (t, u, c :: d).
Proof.
  intros Ht0 Ht Hu0 Hu Hw1 Hw2 Hc Hd Hrest.
  apply forallb_not_char in Ht, Hu, Hd.
  apply forallb_space in Hw1, Hw2.
  unfold pattern_match.
  rewrite text_app.
  apply plus_greedy; auto; [right; eexists; eexists; split; reflexivity|].
  rewrite text_app.
  apply plus_greedy; auto; [right; eexists; eexists; split; reflexivity|].
  rewrite text_app.
  apply star_greedy; auto; [right; eexists; eexists; split; reflexivity|].
  rewrite text_app.
  apply star_greedy; auto; [right; exists c; eexists; split; [reflexivity | exact Hc]|].
  apply plus_greedy; auto; [discriminate|].
  destruct Hrest as [-> | [r' ->]]; [left; reflexivity|].
  right; eexists; eexists; split; reflexivity.
Qed.

(** X5: in every entry returned the title holds no [\]], the URL no [)]
    and the description no newline. *)
Theorem parse_list_items_field_characters (lines : list str) (es : list entry) :
  parse_list_items lines = Ok es ->
  Forall (fun e =>
            ~ In "]"%char (title_of e) /\ ~ In ")"%char (url_of e)
            /\ ~ In Re.newline (desc_of e)) es.
Proof.
  intros H; rewrite parse_list_items_items_of in H; apply parse_all_ok in H.
  induction H as [|b [[t u] d] bs es Hb _ IH]; constructor; [|exact IH].
  destruct (pattern_match_sound _ t u d Hb)
    as (w1 & w2 & rest & _ & _ & Ht & _ & Hu & _ & _ & _ & Hd).
  repeat split; assumption.
Qed.

Lemma parse_list_items_field_characters_witness :
  Forall (fun e =>
            ~ In "]"%char (title_of e) /\ ~ In ")"%char (url_of e)
            /\ ~ In Re.newline (desc_of e))
         [(lit "a[b", lit "u(v", lit "x) - y]")].
Proof.
  exact (parse_list_items_field_characters
           [lit "* [a[b](u(v) - x) - y]"]
           [(lit "a[b", lit "u(v", lit "x) - y]")] eq_refl).
Defined.

Lemma strip_incl (l : str) (c : ascii) : In c (strip l) -> In c l.
Proof.
  intros H; destruct (strip_split l) as (w1 & w2 & E & _ & _).
  rewrite E; apply in_or_app; right; apply in_or_app; left; exact H.
Qed.

Lemma all_space_last (x : str) :
  all_space x -> x <> [] -> exists y c, x = y ++ [c] /\ isspace c = true.
Proof.
  intros Hx Hn; destruct (exists_last Hn) as (y & c & ->).
  exists y, c; split; [reflexivity|].
  apply Forall_app in Hx as [_ Hx]; inversion Hx; assumption.
Qed.

(** A non-empty text that trimming leaves as it is starts and ends with
    a character that is no white space. *)
Lemma strip_fixed_ends (d : str) :
  strip d = d -> d <> [] ->
  (exists c x, d = c :: x /\ isspace c = false)
  /\ (forall y c, d = y ++ [c] -> isspace c = false).
Proof.
  intros E Hn; split.
  - unfold strip in E; destruct (lstrip d) as [|c x] eqn:El.
    + exfalso; apply Hn; rewrite <- E; reflexivity.
    + pose proof (dropwhile_head isspace d c x El) as Hc.
      destruct (rstrip_cons_nonspace c x Hc) as [t Ht].
      exists c, t; split; [congruence | exact Hc].
  - intros y c Hd; apply (strip_last d y c); congruence.
Qed.

(** On a trimmed text without a newline the description is all that
    follows the separator. *)
Lemma pattern_match_rest (b : str) (t u d : str) :
  ~ In Re.newline (strip b) ->
  pattern_match (strip b) = Some (t, u, d) ->
  exists w1 w2,
    strip b = lit "* [" ++ t ++ lit "](" ++ u ++ lit ")"
                ++ w1 ++ lit "-" ++ w2 ++ d
    /\ all_space w1 /\ all_space w2 /\ strip d = d.
Proof.
  intros Hnl H.
  destruct (pattern_match_sound _ t u d H)
    as (w1 & w2 & rest & E & Ht0 & Ht & Hu0 & Hu & Hw1 & Hw2 & Hd0 & Hd).
  destruct (span_space (w2 ++ d ++ rest))
    as (W & y & EX & HW & [-> | (c & y' & -> & Hc)]).
  - exfalso; rewrite app_nil_r in EX.
    assert (HX : W <> []).
    { rewrite <- EX; destruct w2; [destruct d; [congruence|]|]; discriminate. }
    destruct (all_space_last W HW HX) as (y & c & -> & Hc).
    rewrite EX in E.
    assert (Hs : isspace c = false); [|congruence].
    apply (strip_last b (lit "* [" ++ t ++ lit "](" ++ u ++ lit ")"
                           ++ w1 ++ lit "-" ++ y)).
    rewrite E, <- !app_assoc; reflexivity.
  - rewrite EX in E.
    assert (Hy : ~ In Re.newline (c :: y')).
    { intros Hin; apply Hnl; rewrite E.
      do 8 (apply in_or_app; right). exact Hin. }
    assert (E' : strip b = lit "* [" ++ t ++ lit "](" ++ u ++ lit ")"
                             ++ w1 ++ lit "-" ++ W ++ (c :: y') ++ []).
    { rewrite app_nil_r; exact E. }
    pose proof (pattern_match_exact t u w1 W c y' []
                  Ht0 Ht Hu0 Hu Hw1 HW Hc Hy (or_introl eq_refl)) as Hex.
    rewrite <- E', H in Hex; injection Hex as ->.
    exists w1, W; repeat split; auto.
    destruct (exists_last (l := c :: y') ltac:(discriminate)) as (y0 & c' & Ey).
    apply (strip_fixed c y' c' y0 Hc); [|exact Ey].
    apply (strip_last b (lit "* [" ++ t ++ lit "](" ++ u ++ lit ")"
                           ++ w1 ++ lit "-" ++ W ++ y0)).
    rewrite E, Ey, <- !app_assoc; reflexivity.
Qed.

Lemma cont_text_no_newline (lines : list str) :
  Forall (fun l => ~ In Re.newline l) lines ->
  ~ In Re.newline (cont_text lines).
Proof.
  induction 1 as [|l ls Hl _ IH]; simpl; [tauto|].
  destruct (is_bullet l); [simpl; tauto|].
  intros [E | Hin]; [discriminate E|].
  apply in_app_or in Hin as [Hin | Hin]; [|tauto].
  apply Hl, (strip_incl l); exact Hin.
Qed.

Lemma items_of_no_newline (lines : list str) :
  Forall (fun l => ~ In Re.newline l) lines ->
  Forall (fun b => ~ In Re.newline (strip b)) (items_of lines).
Proof.
  induction 1 as [|l ls Hl Hls IH]; simpl; [constructor|].
  destruct (is_bullet l); [|exact IH].
  constructor; [|exact IH].
  intros Hin; apply strip_incl, in_app_or in Hin as [Hin | Hin].
  - apply Hl, (strip_incl l); exact Hin.
  - exact (cont_text_no_newline ls Hls Hin).
Qed.

(** X6: when no line holds a newline character, as for the lines of a
    file, each entry returned spells out its whole item: the trimmed item
    is [* [TITLE](URL)], white space, a hyphen, white space and the
    description, which reaches to the end of the item and has no white
    space at either end. *)
Theorem parse_list_items_description (lines : list str) (es : list entry) :
  Forall (fun l => ~ In Re.newline l) lines ->
  parse_list_items lines = Ok es ->
  Forall2 (fun b e =>
             exists w1 w2,
               strip b = lit "* [" ++ title_of e ++ lit "](" ++ url_of e
                           ++ lit ")" ++ w1 ++ lit "-" ++ w2 ++ desc_of e
               /\ all_space w1 /\ all_space w2
               /\ strip (desc_of e) = desc_of e)
          (items_of lines) es.
Proof.
  intros Hnl H; rewrite parse_list_items_items_of in H; apply parse_all_ok in H.
  pose proof (items_of_no_newline lines Hnl) as Hi.
  induction H as [|b [[t u] d] bs es Hb _ IH]; constructor.
  - inversion Hi; subst; apply pattern_match_rest; assumption.
  - apply IH; inversion Hi; assumption.
Qed.

Lemma parse_list_items_description_witness :
  Forall2 (fun b e =>
             exists w1 w2,
               strip b = lit "* [" ++ title_of e ++ lit "](" ++ url_of e
                           ++ lit ")" ++ w1 ++ lit "-" ++ w2 ++ desc_of e
               /\ all_space w1 /\ all_space w2
               /\ strip (desc_of e) = desc_of e)
          (items_of [lit "* [Foo](http://a.com)  -"; lit "  does  foo "])
          [(lit "Foo", lit "http://a.com", lit "does  foo")].
Proof.
  apply parse_list_items_description; [|reflexivity].
  constructor; [apply forallb_not_char; reflexivity|].
  constructor; [apply forallb_not_char; reflexivity|].
  constructor.
Defined.

Lemma format_item_bullet (e : entry) : is_bullet (format_item e) = true.
Proof. reflexivity. Qed.

Lemma format_item_strip (e : entry) :
  well_formed e -> strip (format_item e) = format_item e.
Proof.
  intros (_ & _ & _ & _ & Hd0 & _ & Hs).
  destruct (strip_fixed_ends (desc_of e) Hs Hd0) as [_ Hlast].
  destruct (exists_last Hd0) as (y & c & Ey).
  apply (strip_fixed "*" _ c
           (lit "* [" ++ title_of e ++ lit "](" ++ url_of e ++ lit ") - " ++ y)).
  - reflexivity.
  - exact (Hlast y c Ey).
  - unfold format_item; rewrite Ey, <- !app_assoc; reflexivity.
Qed.

Lemma format_item_match (e : entry) :
  well_formed e -> pattern_match (format_item e) = Some e.
Proof.
  intros (Ht0 & Ht & Hu0 & Hu & Hd0 & Hd & Hs).
  destruct (strip_fixed_ends (desc_of e) Hs Hd0) as [(c & x & Ed & Hc) _].
  destruct e as [[t u] d]; unfold format_item, title_of, url_of, desc_of in *.
  cbn [fst snd] in *; subst d.
  pose proof (pattern_match_exact t u (lit " ") (lit " ") c x []
                Ht0 Ht Hu0 Hu) as H.
  rewrite app_nil_r in H; apply H; auto; repeat constructor.
Qed.

Lemma items_of_format (es : list entry) :
  Forall well_formed es ->
  cont_text (map format_item es) = []
  /\ items_of (map format_item es) = map format_item es.
Proof.
  induction 1 as [|e es He _ [IHc IHi]]; [split; reflexivity|].
  cbn [map cont_text items_of]; rewrite format_item_bullet.
  rewrite IHc, IHi, app_nil_r, (format_item_strip e He); split; reflexivity.
Qed.

Lemma parse_all_format (es : list entry) :
  Forall well_formed es -> parse_all (map format_item es) = Ok es.
Proof.
  induction 1 as [|e es He _ IH]; [reflexivity|].
  cbn [map parse_all].
  rewrite (format_item_strip e He), (format_item_match e He), IH.
  reflexivity.
Qed.

(** X7: writing entries as README lines and parsing the lines gives the
    entries back, for entries with a non-empty title without [\]], a
    non-empty URL without [)] and a non-empty trimmed description
    without a newline. *)
Theorem parse_list_items_format (es : list entry) :
  Forall well_formed es ->
  parse_list_items (map format_item es) = Ok es.
Proof.
  intros H; rewrite parse_list_items_items_of.
  destruct (items_of_format es H) as [_ ->].
  apply parse_all_format; exact H.
Qed.

Lemma parse_list_items_format_witness :
  parse_list_items
    (map format_item
         [(lit "Foo", lit "http://a.com", lit "does foo");
          (lit "R&D", lit "http://b.org/?q=1", lit "a - b")])
  = Ok [(lit "Foo", lit "http://a.com", lit "does foo");
        (lit "R&D", lit "http://b.org/?q=1", lit "a - b")].
Proof.
  apply parse_list_items_format.
  constructor; [|constructor; [|constructor]];
    (split; [discriminate|]; split; [apply forallb_not_char; reflexivity|];
     split; [discriminate|]; split; [apply forallb_not_char; reflexivity|];
     split; [discriminate|]; split; [apply forallb_not_char; reflexivity|];
     reflexivity).
Defined.

(** ** Escaping and [render_html] *)

Lemma entity_plain (c : ascii) : special c = false -> entity c = [c].
Proof. destruct c as [[] [] [] [] [] [] [] []]; vm_compute; congruence. Qed.

Lemma entity_special (c : ascii) :
  special c = true -> 4 <= List.length (entity c).
Proof.
  destruct c as [[] [] [] [] [] [] [] []]; vm_compute; intros H;
    try discriminate H; lia.
Qed.

Lemma escape_length (s : str) :
  List.length s <= List.length (escape s true).
Proof.
  rewrite escape_entities; induction s as [|c s IH]; [reflexivity|].
  cbn [map List.concat]; rewrite length_app.
  change (List.length (c :: s)) with (S (List.length s)).
  destruct (special c) eqn:Hc.
  - pose proof (entity_special c Hc); lia.
  - rewrite (entity_plain c Hc).
    change (List.length [c]) with 1; lia.
Qed.

(** X8: escaping leaves a text as it is exactly when the text holds none
    of the five characters [&], [<], [>], double quote and single quote. *)
Theorem escape_unchanged_iff (s : str) :
  escape s true = s <-> Forall (fun c => special c = false) s.
Proof.
  rewrite escape_entities; split.
  - induction s as [|c s IH]; [constructor|].
    cbn [map List.concat]; intros E.
    destruct (special c) eqn:Hc.
    + exfalso; apply (f_equal (@List.length ascii)) in E.
      rewrite length_app, <- escape_entities in E; cbn [List.length] in E.
      pose proof (entity_special c Hc); pose proof (escape_length s); lia.
    + rewrite (entity_plain c Hc) in E; injection E as E.
      constructor; [exact Hc | exact (IH E)].
  - induction 1 as [|c s Hc _ IH]; [reflexivity|].
    cbn [map List.concat]; rewrite (entity_plain c Hc), IH; reflexivity.
Qed.

Lemma entity_prefix_free (c c' : ascii) (x y : str) :
  entity c ++ x = entity c' ++ y -> c = c' /\ x = y.
Proof.
  unfold entity.
  repeat match goal with
         | |- context [Ascii.eqb ?a ?b] =>
             destruct (Ascii.eqb_spec a b); [subst a|]
         end;
    intros E; try (vm_compute in E; discriminate E);
    try (split; [reflexivity|]; cbn in E; congruence);
    try (injection E; intros; subst; split; [reflexivity|]; congruence);
    cbn in E; injection E; intros; subst; try congruence; auto.
Qed.

(** Escaping loses nothing: different texts have different escapes. *)
Lemma escape_injective (a b : str) :
  escape a true = escape b true -> a = b.
Proof.
  rewrite !escape_entities; revert b.
  induction a as [|c a IH]; intros [|c' b] E; cbn [map List.concat] in E.
  - reflexivity.
  - exfalso; destruct (special c') eqn:Hc.
    + pose proof (entity_special c' Hc) as L.
      apply (f_equal (@List.length ascii)) in E.
      rewrite length_app in E; cbn [List.length] in E; lia.
    + rewrite (entity_plain c' Hc) in E; discriminate E.
  - exfalso; destruct (special c) eqn:Hc.
    + pose proof (entity_special c Hc) as L.
      apply (f_equal (@List.length ascii)) in E.
      rewrite length_app in E; cbn [List.length] in E; lia.
    + rewrite (entity_plain c Hc) in E; discriminate E.
  - apply entity_prefix_free in E as [-> E].
    rewrite (IH b E); reflexivity.
Qed.

Lemma split_at_first (c : ascii) (a a' r r' : str) :
  ~ In c a -> ~ In c a' -> a ++ c :: r = a' ++ c :: r' -> a = a' /\ r = r'.
Proof.
  revert a'; induction a as [|x a IH]; intros [|x' a'] Ha Ha' E;
    cbn [app] in E.
  - injection E as E; auto.
  - injection E as -> _; exfalso; apply Ha'; left; reflexivity.
  - injection E as -> _; exfalso; apply Ha; left; reflexivity.
  - injection E as -> E.
    destruct (IH a') as [-> ->]; auto;
      intros H; [apply Ha | apply Ha']; right; exact H.
Qed.

Lemma escape_no_markup (s : str) :
  ~ In "<"%char (escape s true) /\ ~ In dquote (escape s true).
Proof.
  destruct (count_escape s) as (H1 & _ & H3 & _).
  split; apply (count_occ_not_In ascii_dec); assumption.
Qed.

(** The text written for the description, empty when there is none. *)
Lemma description_part_injective (d d' : str) :
  (if truthy d then lit " - " ++ escape d true else [])
  = (if truthy d' then lit " - " ++ escape d' true else []) -> d = d'.
Proof.
  destruct d as [|c d], d' as [|c' d']; cbn [truthy]; intros E.
  - reflexivity.
  - discriminate E.
  - discriminate E.
  - apply escape_injective; injection E as E; exact E.
Qed.

Lemma description_part_no_markup (d : str) :
  ~ In "<"%char (if truthy d then lit " - " ++ escape d true else []).
Proof.
  destruct (truthy d); [|intros []].
  intros [E | [E | [E | H]]]; try discriminate E.
  exact (proj1 (escape_no_markup d) H).
Qed.

(** A list item can be read back from the front of a text. *)
Lemma render_li_cut (e e' : entry) (r r' : str) :
  render_li e ++ r = render_li e' ++ r' -> e = e' /\ r = r'.
Proof.
  rewrite !render_li_fields, <- !app_assoc; intros E.
  apply app_inv_head in E.
  apply (app_inv_head [dquote]) in E.
  apply (split_at_first dquote (escape (url_of e) true)
           (escape (url_of e') true) _ _
           (proj2 (escape_no_markup _)) (proj2 (escape_no_markup _)))
    in E as [Eu E].
  apply (app_inv_head (lit ">")) in E.
  apply (split_at_first "<" (escape (title_of e) true)
           (escape (title_of e') true)
           (lit "/a>" ++ _) (lit "/a>" ++ _)
           (proj1 (escape_no_markup _)) (proj1 (escape_no_markup _)))
    in E as [Et E].
  apply (app_inv_head (lit "/a>")) in E.
  apply (split_at_first "<" _ _
           (lit "/li>" ++ r) (lit "/li>" ++ r')
           (description_part_no_markup (desc_of e))
           (description_part_no_markup (desc_of e')))
    in E as [Ed E].
  apply (app_inv_head (lit "/li>")) in E.
  apply escape_injective in Eu, Et.
  apply description_part_injective in Ed.
  destruct e as [[t u] d], e' as [[t' u'] d'].
  unfold title_of, url_of, desc_of in *; cbn [fst snd] in *.
  subst; auto.
Qed.

(** X9: [render_html] loses nothing: two lists of entries with the same
    page are the same list. *)
Theorem render_html_injective (tools tools' : list entry) :
  render_html tools = render_html tools' -> tools = tools'.
Proof.
  rewrite !render_html_unlines; intros E; apply app_inv_head in E.
  revert tools' E; induction tools as [|e es IH]; intros [|e' es'] E.
  - reflexivity.
  - exfalso; unfold unlines at 2 in E; cbn [map List.concat] in E.
    rewrite render_li_fields in E; discriminate E.
  - exfalso; unfold unlines at 1 in E; cbn [map List.concat] in E.
    rewrite render_li_fields in E; discriminate E.
  - unfold unlines at 1 3 in E; cbn [map List.concat] in E.
    fold (unlines (map render_li es)) in E.
    fold (unlines (map render_li es')) in E.
    rewrite <- !app_assoc in E.
    apply render_li_cut in E as [-> E].
    apply (app_inv_head [Re.newline]) in E.
    rewrite (IH es' E); reflexivity.
Qed.

Lemma render_html_injective_witness :
  [(lit "a", lit "u", lit "x")] = [(lit "a", lit "u", lit "x")].
Proof.
  exact (render_html_injective
           [(lit "a", lit "u", lit "x")] [(lit "a", lit "u", lit "x")]
           eq_refl).
Defined.

(** ** The driver *)

Lemma splitlines_from_line (l s cur : str) :
  one_line l ->
  splitlines_from (l ++ Re.newline :: s) cur
  = (cur ++ l) :: splitlines_from s [].
Proof.
  intros Hl; revert cur; induction Hl as [|c l Hc _ IH]; intros cur.
  - rewrite app_nil_r; destruct s; reflexivity.
  - cbn [app splitlines_from]; rewrite Hc, IH, <- app_assoc; reflexivity.
Qed.

(** Splitting the text of lines gives the lines back. *)
Lemma splitlines_unlines (ls : list str) :
  Forall one_line ls -> splitlines (unlines ls) = ls.
Proof.
  unfold splitlines; induction 1 as [|l ls Hl _ IH]; [reflexivity|].
  unfold unlines; cbn [map List.concat]; fold (unlines ls).
  rewrite <- app_assoc; cbn [app].
  change "010"%char with Re.newline.
  rewrite (splitlines_from_line l (unlines ls) [] Hl), IH; reflexivity.
Qed.

(** X11: on every system, when reading [README.md] raises, as it does
    with [FileNotFoundError] when there is no such file, [main] ends with
    that exception and a non-zero exit status in the state the reading
    left: nothing is written and nothing is printed. *)
Theorem main_missing_readme
        (world : Type) (os : IO.system world) (w w1 : world) (e : exn) :
  IO.read_text os readme_path w = (Raise e, w1) ->
  main os w = (Raise e, w1) /\ IO.exit_status (fst (main os w)) = 1.
Proof.
  intros H.
  assert (E : main os w = (Raise e, w1)).
  { rewrite main_unfold, H; reflexivity. }
  rewrite E; split; reflexivity.
Qed.

Lemma main_missing_readme_witness :
  main Disk.os
       {| Disk.names := fun _ => None; Disk.contents := fun _ => Disk.Undecodable;
          Disk.next := 0; Disk.stdout := [] |}
  = (Raise (FileNotFoundError (lit "README.md")),
     {| Disk.names := fun _ => None; Disk.contents := fun _ => Disk.Undecodable;
        Disk.next := 0; Disk.stdout := [] |})
  /\ IO.exit_status
       (fst (main Disk.os
                  {| Disk.names := fun _ => None;
                     Disk.contents := fun _ => Disk.Undecodable;
                     Disk.next := 0; Disk.stdout := [] |})) = 1.
Proof.
  exact (main_missing_readme _ Disk.os
           {| Disk.names := fun _ => None;
              Disk.contents := fun _ => Disk.Undecodable;
              Disk.next := 0; Disk.stdout := [] |} _ _ eq_refl).
Defined.

Lemma format_item_no_hash (es : list entry) :
  Forall no_hash (map format_item es).
Proof. induction es; constructor; [reflexivity | assumption]. Qed.

(** X13: on every system, for a README made of lines without line
    breaks, with its first marker line followed by the lines of
    well-formed entries and then the end or a line starting with [#],
    [main] writes to [index.html] the page of exactly these entries, in
    this order, and prints its line; its result is that of these two
    calls, an exception of the writing included. *)
Theorem main_generates (world : Type) (os : IO.system world) (w w1 : world)
        (pre : list str) (m : str) (es : list entry) (rest : list str) :
  IO.read_text os readme_path w
  = (Ok (unlines (pre ++ m :: map format_item es ++ rest)), w1) ->
  Forall one_line (pre ++ m :: map format_item es ++ rest) ->
  Forall no_heading pre -> is_heading m = true ->
  Forall well_formed es ->
  (rest = [] \/ exists h t, rest = h :: t /\ startswith (lit "#") h = true) ->
  main os w
  = match IO.write_text os index_path (render_html es) w1 with
    | (Ok _, w2) => IO.print os (lit "Wrote index.html") w2
    | (Raise e, w2) => (Raise e, w2)
    end.
Proof.
  intros Hr Hl Hpre Hm Hes Hrest.
  rewrite main_unfold, Hr, (splitlines_unlines _ Hl).
  rewrite (extract_section_split pre m (map format_item es) rest Hpre Hm
             (format_item_no_hash es) Hrest).
  rewrite parse_list_items_items_of.
  destruct (items_of_format es Hes) as [_ ->].
  rewrite (parse_all_format es Hes); reflexivity.
Qed.

Lemma main_generates_witness :
  main Disk.os tools_world
  = match
      IO.write_text Disk.os index_path
        (render_html
           [(lit "Foo", lit "http://a.com", lit "does foo");
            (lit "R&D", lit "http://b.org/?q=1", lit "a - b")])
        tools_world
    with
    | (Ok _, w2) => IO.print Disk.os (lit "Wrote index.html") w2
    | (Raise e, w2) => (Raise e, w2)
    end.
Proof.
  apply (main_generates _ Disk.os tools_world tools_world
           [lit "# browser-tools"] (lit "## List of tools")
           [(lit "Foo", lit "http://a.com", lit "does foo");
            (lit "R&D", lit "http://b.org/?q=1", lit "a - b")]
           [lit "## License"]).
  - reflexivity.
  - repeat constructor.
  - repeat constructor.
  - reflexivity.
  - constructor; [|constructor; [|constructor]];
      (split; [discriminate|]; split; [apply forallb_not_char; reflexivity|];
       split; [discriminate|]; split; [apply forallb_not_char; reflexivity|];
       split; [discriminate|]; split; [apply forallb_not_char; reflexivity|];
       reflexivity).
  - right; eexists; eexists; split; reflexivity.
Defined.

Lemma one_line_strip (l : str) : one_line l -> one_line (strip l).
Proof.
  intros H; destruct (strip_split l) as (w1 & w2 & E & _ & _).
  rewrite E in H; apply Forall_app in H as [_ H].
  apply Forall_app in H as [H _]; exact H.
Qed.

Lemma cont_text_one_line (lines : list str) :
  Forall one_line lines -> one_line (cont_text lines).
Proof.
  induction 1 as [|l ls Hl _ IH]; simpl; [constructor|].
  destruct (is_bullet l); [constructor|].
  constructor; [reflexivity|].
  apply Forall_app; split; [apply one_line_strip; exact Hl | exact IH].
Qed.

Lemma items_of_one_line (lines : list str) :
  Forall one_line lines -> Forall one_line (items_of lines).
Proof.
  induction 1 as [|l ls Hl Hls IH]; simpl; [constructor|].
  destruct (is_bullet l); [|exact IH].
  constructor; [|exact IH].
  apply Forall_app; split;
    [apply one_line_strip; exact Hl | apply cont_text_one_line; exact Hls].
Qed.

Lemma splitlines_from_one_line (n : nat) :
  forall s cur,
    List.length s <= n -> one_line cur ->
    Forall one_line (splitlines_from s cur).
Proof.
  induction n as [|n IH]; intros [|c r] cur Hn Hcur;
    cbn [splitlines_from List.length] in *; try lia.
  - destruct (truthy cur); repeat constructor; exact Hcur.
  - destruct (truthy cur); repeat constructor; exact Hcur.
  - destruct (is_linebreak c) eqn:Hc.
    + constructor; [exact Hcur|].
      apply IH; [|constructor].
      destruct r as [|d r']; [simpl; lia|].
      destruct (Ascii.eqb c "013" && Ascii.eqb d "010")%bool;
        cbn [List.length] in *; lia.
    + apply IH; [lia|].
      apply Forall_app; split; [exact Hcur | repeat constructor; exact Hc].
Qed.

Lemma collect_sub (P : str -> Prop) (lines : list str) :
  Forall P lines -> Forall P (collect lines).
Proof.
  induction 1 as [|l ls Hl _ IH]; cbn [collect]; [constructor|].
  destruct (startswith (lit "#") l); constructor; assumption.
Qed.

Lemma skipn_sub (P : str -> Prop) (n : nat) (lines : list str) :
  Forall P lines -> Forall P (skipn n lines).
Proof.
  revert lines; induction n as [|n IH]; intros lines H; [exact H|].
  destruct H; [constructor | apply IH; assumption].
Qed.

Lemma extract_section_sub (P : str -> Prop) (lines sec : list str) :
  Forall P lines -> extract_section lines = Ok sec -> Forall P sec.
Proof.
  unfold extract_section; intros H E.
  destruct (find_start lines 0) as [start|]; [|discriminate E].
  injection E as <-; apply collect_sub, skipn_sub; exact H.
Qed.

Lemma one_line_no_newline (s : str) : one_line s -> ~ In Re.newline s.
Proof.
  unfold one_line; rewrite Forall_forall; intros H Hin.
  specialize (H _ Hin); discriminate H.
Qed.

Lemma entries_one_line (bs : list str) (es : list entry) :
  Forall one_line bs ->
  Forall2 (fun b e => pattern_match (strip b) = Some e) bs es ->
  Forall (fun e =>
            one_line (title_of e) /\ one_line (url_of e)
            /\ one_line (desc_of e)
            /\ strip (desc_of e) = desc_of e) es.
Proof.
  intros Hi Hp; induction Hp as [|b [[t u] d] bs es Hb _ IH];
    constructor; [|apply IH; inversion Hi; assumption].
  inversion Hi as [|? ? Hb1 _]; subst.
  apply one_line_strip in Hb1.
  destruct (pattern_match_rest b t u d (one_line_no_newline _ Hb1) Hb)
    as (w1 & w2 & Eb & _ & _ & Hs).
  unfold title_of, url_of, desc_of; cbn [fst snd].
  unfold one_line in *; rewrite Eb in Hb1.
  repeat (apply Forall_app in Hb1 as [? Hb1]).
  repeat split; assumption.
Qed.

(** X14: on every system, when [main] returns, the text it wrote to
    [index.html] is the page of entries whose title, URL and description
    hold no line break, so that each list item is one line of the page,
    and whose description has no white space at its ends. *)
Theorem main_entries_one_line
        (world : Type) (os : IO.system world) (w w' : world) :
  main os w = (Ok tt, w') ->
  exists text tools w1 w2,
    IO.read_text os readme_path w = (Ok text, w1)
    /\ IO.write_text os index_path (render_html tools) w1 = (Ok tt, w2)
    /\ IO.print os (lit "Wrote index.html") w2 = (Ok tt, w')
    /\ Forall (fun e =>
                 one_line (title_of e) /\ one_line (url_of e)
                 /\ one_line (desc_of e)
                 /\ strip (desc_of e) = desc_of e) tools.
Proof.
  rewrite main_unfold; intros H.
  destruct (IO.read_text os readme_path w) as [[text|e] w1]; [|discriminate H].
  destruct (extract_section (splitlines text)) as [sec|e] eqn:He;
    [|discriminate H].
  destruct (parse_list_items sec) as [tools|e] eqn:Hp; [|discriminate H].
  unfold write_page, IO.bind in H.
  destruct (IO.write_text os index_path (render_html tools) w1)
    as [[[]|e] w2] eqn:Hw; [|discriminate H].
  exists text, tools, w1, w2; repeat split; try assumption.
  assert (Hsec : Forall one_line sec).
  { apply (extract_section_sub one_line (splitlines text) sec); [|exact He].
    apply (splitlines_from_one_line (List.length text));
      [reflexivity | constructor]. }
  rewrite parse_list_items_items_of in Hp; apply parse_all_ok in Hp.
  exact (entries_one_line _ _ (items_of_one_line sec Hsec) Hp).
Qed.

Lemma main_entries_one_line_witness :
  exists text tools w1 w2,
    IO.read_text Disk.os readme_path tools_world = (Ok text, w1)
    /\ IO.write_text Disk.os index_path (render_html tools) w1 = (Ok tt, w2)
    /\ IO.print Disk.os (lit "Wrote index.html") w2
       = (Ok tt, snd (main Disk.os tools_world))
    /\ Forall (fun e =>
                 one_line (title_of e) /\ one_line (url_of e)
                 /\ one_line (desc_of e)
                 /\ strip (desc_of e) = desc_of e) tools.
Proof.
  apply (main_entries_one_line _ Disk.os tools_world
           (snd (main Disk.os tools_world))).
  vm_compute; reflexivity.
Defined.

(** ** Runs on a disk with a directory, a second name and bytes that are
    no text *)

Example scenario_index_is_directory :
  main Disk.os directory_world
  = (Raise (IsADirectoryError (lit "index.html")), directory_world).
Proof. reflexivity. Qed.

Example scenario_index_names_readme :
  fst (main Disk.os linked_world) = Ok tt
  /\ Disk.text_at (snd (main Disk.os linked_world)) readme_path
     = Some (render_html
               [(lit "Foo", lit "http://a.com", lit "does foo");
                (lit "R&D", lit "http://b.org/?q=1", lit "a - b")])
  /\ fst (main Disk.os (snd (main Disk.os linked_world)))
     = Raise heading_error.
Proof. repeat split; vm_compute; reflexivity. Qed.

Example scenario_readme_not_text :
  fst (main Disk.os
            {| Disk.names := Disk.names tools_world;
               Disk.contents := fun _ => Disk.Undecodable;
               Disk.next := 1; Disk.stdout := [] |})
  = Raise UnicodeDecodeError.
Proof. reflexivity. Qed.
